(** * The ceph-nfs relation handler of charm-microceph

    A shallow embedding of [src/ceph_nfs.py] (class [CephNfsProviderHandler])
    and the properties of its membership reconciliation, teardown and
    lifecycle handlers.

    The handler is effectful Python: it queries the microceph inventory,
    calls the per-host enable/disable actuators (which may raise), writes
    relation data and logs.  The embedding is a state-and-exception monad
    over an explicit [world]; every call that leaves the handler is recorded
    in [trace], in the order it is made. *)

From stdpp Require Import base strings list gmap.

Open Scope string_scope.
Open Scope nat_scope.
Open Scope list_scope.

(** ** Data model *)

(** One entry of [client.cluster.list_services()].  The code reads
    [s["service"]] and [s["location"]] by subscript and the group with
    [s.get("group_id")], which is [None] when the key is absent. *)
Record svc := Svc {
  service : string;
  location : string;
  group_id : option string
}.

#[global] Instance svc_eq_dec : EqDecision svc.
Proof. solve_decision. Defined.

(** A unit of the ["peers"] relation with its data bag: the host name is
    stored under the unit's own name, the address under ["public-address"]. *)
Record peer_unit := PeerUnit {
  unit_name : string;
  unit_data : gmap string string
}.

(** A relation of the ceph-nfs endpoint.  Python compares relations by
    object identity, which the relation id stands for. *)
Record Relation := MkRelation {
  rel_id : nat;
  app_name : string
}.

#[global] Instance Relation_eq_dec : EqDecision Relation.
Proof. solve_decision. Defined.

(** Calls that leave the handler.  The actuator calls carry their outcome:
    [true] when the call returned, [false] when it raised. *)
Inductive event :=
  | ListServices
  | EnableNfs (host cluster_id public_addr : string) (ok : bool)
  | DisableNfs (host cluster_id : string) (ok : bool)
  | ListFsVolumes
  | CreateFsVolume (volume_name : string)
  | GetNamedKey (client_name : string) (caps : list (string * list string))
  | RemoveNamedKey (client_name : string)
  | RelationClear (rel : nat)
  | RelationUpdate (rel : nat) (fields : list (string * string))
  | Defer.

#[global] Instance event_eq_dec : EqDecision event.
Proof. solve_decision. Defined.

(** Log records keep the format string and its arguments apart, as the
    [logging] calls of the source do. *)
Inductive level := INFO | WARNING | ERROR.

Inductive log_arg := AStr (s : string) | AInt (n : nat).

Record log_record := Log {
  log_level : level;
  log_msg : string;
  log_args : list log_arg
}.

#[global] Instance level_eq_dec : EqDecision level.
Proof. solve_decision. Defined.
#[global] Instance log_arg_eq_dec : EqDecision log_arg.
Proof. solve_decision. Defined.
#[global] Instance log_record_eq_dec : EqDecision log_record.
Proof. solve_decision. Defined.

(** Everything the handler reads or changes. *)
Record world := World {
  is_leader : bool;                          (* self.model.unit.is_leader() *)
  osd_count : nat;                           (* ceph.get_osd_count() *)
  services : list svc;                       (* the microceph inventory *)
  peers : option (list peer_unit);           (* self.model.get_relation("peers") *)
  relations : list Relation;                 (* self.model.relations[self.relation_name] *)
  relation_data : gmap nat (gmap string string);  (* relation.data[self.model.app], by relation id *)
  fs_volumes : list string;                  (* names of ceph.list_fs_volumes() *)
  trace : list event;
  log : list log_record
}.

Definition set_services (l : list svc) (w : world) : world :=
  World (is_leader w) (osd_count w) l (peers w) (relations w)
        (relation_data w) (fs_volumes w) (trace w) (log w).

Definition set_relation_data (d : gmap nat (gmap string string)) (w : world) : world :=
  World (is_leader w) (osd_count w) (services w) (peers w) (relations w)
        d (fs_volumes w) (trace w) (log w).

Definition set_fs_volumes (l : list string) (w : world) : world :=
  World (is_leader w) (osd_count w) (services w) (peers w) (relations w)
        (relation_data w) l (trace w) (log w).

Definition set_trace (t : list event) (w : world) : world :=
  World (is_leader w) (osd_count w) (services w) (peers w) (relations w)
        (relation_data w) (fs_volumes w) t (log w).

Definition set_log (l : list log_record) (w : world) : world :=
  World (is_leader w) (osd_count w) (services w) (peers w) (relations w)
        (relation_data w) (fs_volumes w) (trace w) l.

(** ** Collaborators

    The modules the handler imports ([microceph], [ceph], [utils]) and the
    Python runtime are outside [src/]; they are taken as parameters.  An
    actuator either raises or returns, and on return leaves a new inventory;
    what it decides may depend on everything that happened before. *)
Inductive actuation :=
  | Done (inventory : list svc)
  | Fails (ex : string).

Class Collaborators := {
  (* iteration order of [set(l)]: Python fixes none *)
  set_iter : list string → list string;
  (* microceph.enable_nfs(candidate, cluster_id, public_addr) *)
  enable_nfs : world → string → string → string → actuation;
  (* microceph.disable_nfs(host, cluster_id) *)
  disable_nfs : world → string → string → actuation;
  (* ceph.get_named_key(client_name, caps) *)
  get_named_key : world → string → list (string * list string) → string;
  (* utils.get_fsid() *)
  get_fsid : world → string;
  (* utils.get_mon_addresses() *)
  get_mon_addresses : world → list string;
  (* json.dumps on a list of strings *)
  json_dumps : list string → string
}.

(** What a Python set guarantees about [set_iter]: the members of the list,
    each once. *)
Definition set_iter_ok `{Collaborators} : Prop :=
  ∀ l : list string, NoDup (set_iter l) ∧ ∀ x, x ∈ set_iter l ↔ x ∈ l.

(** ** The state-and-exception monad *)

Inductive outcome (A : Type) :=
  | Returned (a : A)
  | Raised (ex : string).
Arguments Returned {A} a.
Arguments Raised {A} ex.

Definition M (A : Type) : Type := world → outcome A * world.

Definition ret {A} (a : A) : M A := λ w, (Returned a, w).

Definition raise {A} (ex : string) : M A := λ w, (Raised ex, w).

Definition bind {A B} (m : M A) (k : A → M B) : M B := λ w,
  match m w with
  | (Returned a, w') => k a w'
  | (Raised ex, w') => (Raised ex, w')
  end.

(** [try: m except Exception as ex: h ex] *)
Definition try_except {A} (m : M A) (h : string → M A) : M A := λ w,
  match m w with
  | (Returned a, w') => (Returned a, w')
  | (Raised ex, w') => h ex w'
  end.

Declare Scope py_scope.
Delimit Scope py_scope with py.
Notation "'let!' x ':=' m 'in' k" := (bind m (λ x, k))
  (at level 10, x name, m at level 100, k at level 200, only parsing) : py_scope.
Notation "m '>>' k" := (bind m (λ _, k))
  (at level 100, k at level 200, right associativity, only parsing) : py_scope.
Open Scope py_scope.

Definition emit (e : event) : M unit := λ w,
  (Returned tt, set_trace (trace w ++ [e]) w).

Definition logger (lvl : level) (msg : string) (args : list log_arg) : M unit := λ w,
  (Returned tt, set_log (log w ++ [Log lvl msg args]) w).

Definition get {A} (f : world → A) : M A := λ w, (Returned (f w), w).

(** The result and the world a computation ends in. *)
Definition result_of {A} (m : M A) (w : world) : outcome A := fst (m w).
Definition world_after {A} (m : M A) (w : world) : world := snd (m w).

(** ** The handler *)

Section Handler.
Context `{Collaborators}.

(** [client.cluster.list_services()] *)
Definition list_services : M (list svc) :=
  emit ListServices >> get services.

(** [microceph.enable_nfs(candidate, cluster_id, public_addr)] *)
Definition call_enable_nfs (candidate cluster_id public_addr : string) : M unit := λ w,
  match enable_nfs w candidate cluster_id public_addr with
  | Done inv =>
      (Returned tt,
       set_trace (trace w ++ [EnableNfs candidate cluster_id public_addr true])
                 (set_services inv w))
  | Fails ex =>
      (Raised ex,
       set_trace (trace w ++ [EnableNfs candidate cluster_id public_addr false]) w)
  end.

(** [microceph.disable_nfs(host, cluster_id)] *)
Definition call_disable_nfs (host cluster_id : string) : M unit := λ w,
  match disable_nfs w host cluster_id with
  | Done inv =>
      (Returned tt,
       set_trace (trace w ++ [DisableNfs host cluster_id true]) (set_services inv w))
  | Fails ex =>
      (Raised ex, set_trace (trace w ++ [DisableNfs host cluster_id false]) w)
  end.

Definition _cluster_id (r : Relation) : string := app_name r.

(** The loop of [_get_public_address] over [rel.units]; the value is a Python
    [str] or [None]. *)
Fixpoint find_public_address (hostname : string) (units : list peer_unit)
    : option string :=
  match units with
  | [] => Some ""
  | u :: rest =>
      let rel_data := unit_data u in
      let unit_hostname := rel_data !! unit_name u in
      if decide (Some hostname = unit_hostname)
      then rel_data !! "public-address"
      else find_public_address hostname rest
  end.

Definition _get_public_address (hostname : string) : M (option string) := λ w,
  match peers w with
  | None => (Raised "'NoneType' object has no attribute 'units'", w)
  | Some units => (Returned (find_public_address hostname units), w)
  end.

(** Python truthiness of a [str] or [None]. *)
Definition truthy (v : option string) : bool :=
  match v with
  | None => false
  | Some s => negb (bool_decide (s = ""))
  end.

(** The locals of [_ensure_nfs_cluster] computed from the inventory. *)
Definition all_nfs_services (svcs : list svc) : list svc :=
  filter (λ s, service s = "nfs") svcs.

Definition nfs_services (cluster_id : string) (svcs : list svc) : list svc :=
  filter (λ s, group_id s = Some cluster_id) (all_nfs_services svcs).

Definition exclude_hosts (svcs : list svc) : list string :=
  location <$> all_nfs_services svcs.

Definition all_hosts (svcs : list svc) : list string :=
  set_iter (location <$> svcs).

Definition candidates (svcs : list svc) : list string :=
  filter (λ h, h ∉ exclude_hosts svcs) (all_hosts svcs).

(** How one pass of the [for candidate in candidates] body ends. *)
Inductive flow :=
  | Continue (nodes_in_cluster : nat)
  | Break (nodes_in_cluster : nat).

(** The body inside [try:]. *)
Definition enroll_body (cluster_id candidate : string) (nodes_in_cluster : nat)
    : M flow :=
  let! public_addr := _get_public_address candidate in
  if negb (truthy public_addr) then
    logger WARNING
      "Could not find the public address of '%s' in the peer relation data."
      [AStr candidate] >>
    ret (Continue nodes_in_cluster)
  else
    call_enable_nfs candidate cluster_id (default "" public_addr) >>
    let nodes_in_cluster := nodes_in_cluster + 1 in
    if (nodes_in_cluster =? 3)%nat then ret (Break nodes_in_cluster)
    else ret (Continue nodes_in_cluster).

(** [for candidate in candidates: try: ... except Exception as ex: ...];
    the value is [nodes_in_cluster] when the loop is left. *)
Fixpoint enroll (cluster_id : string) (cands : list string)
    (nodes_in_cluster : nat) : M nat :=
  match cands with
  | [] => ret nodes_in_cluster
  | candidate :: rest =>
      let! f :=
        try_except (enroll_body cluster_id candidate nodes_in_cluster)
          (λ ex,
             logger ERROR "Could not enable nfs (cluster_id '%s') on host '%s': %s"
               [AStr cluster_id; AStr candidate; AStr ex] >>
             ret (Continue nodes_in_cluster)) in
      match f with
      | Continue n => enroll cluster_id rest n
      | Break n => ret n
      end
  end.

Definition _ensure_nfs_cluster (cluster_id : string) : M bool :=
  let! services := list_services in
  let nodes_in_cluster := length (nfs_services cluster_id services) in
  if (3 <=? nodes_in_cluster)%nat then
    logger INFO "NFS Cluster '%s' already exists, and there are >= 3 nodes in it."
      [AStr cluster_id] >>
    ret true
  else
    let! nodes_in_cluster :=
      enroll cluster_id (candidates services) nodes_in_cluster in
    if (nodes_in_cluster =? 0)%nat then
      logger ERROR "Could not create NFS Cluster '%s' on any host" [AStr cluster_id] >>
      ret false
    else if (nodes_in_cluster <? 3)%nat then
      logger WARNING "NFS cluster '%s' is enabled only on %d / 3 nodes."
        [AStr cluster_id; AInt nodes_in_cluster] >>
      ret true
    else
      logger INFO "NFS cluster '%s' is enabled on 3 / 3 nodes." [AStr cluster_id] >>
      ret true.

(** [_ensure_fs_volume]: the volume is created when no listed volume has its
    name; a created volume is listed from then on. *)
Definition _ensure_fs_volume (volume_name : string) : M unit :=
  let! fs_volumes := emit ListFsVolumes >> get fs_volumes in
  if bool_decide (volume_name ∈ fs_volumes) then ret tt
  else
    emit (CreateFsVolume volume_name) >>
    (λ w, (Returned tt, set_fs_volumes (fs_volumes ++ [volume_name]) w)).

Definition caps : list (string * list string) :=
  [("mon", ["allow r"]); ("mgr", ["allow rw"])].

(** [relation_data.clear()] and [relation_data.update(fields)] on the bag of
    relation [rel]; an update keeps the keys it does not name. *)
Definition relation_data_clear (rel : nat) : M unit := λ w,
  (Returned tt,
   set_trace (trace w ++ [RelationClear rel])
             (set_relation_data (<[rel := ∅]> (relation_data w)) w)).

Definition dict_update (fields : list (string * string)) (d : gmap string string)
    : gmap string string :=
  foldl (λ acc kv, <[kv.1 := kv.2]> acc) d fields.

Definition relation_data_update (rel : nat) (fields : list (string * string))
    : M unit := λ w,
  let old := default ∅ (relation_data w !! rel) in
  (Returned tt,
   set_trace (trace w ++ [RelationUpdate rel fields])
             (set_relation_data (<[rel := dict_update fields old]> (relation_data w)) w)).

Definition _service_relation (relation : Relation) : M bool :=
  let cluster_id := _cluster_id relation in
  let! ensured := _ensure_nfs_cluster cluster_id in
  if negb ensured then
    relation_data_clear (rel_id relation) >>
    ret false
  else
    let volume_name := cluster_id +:+ "-vol" in
    _ensure_fs_volume volume_name >>
    let client_name := "client." +:+ app_name relation in
    let! client_key :=
      emit (GetNamedKey client_name caps) >>
      get (λ w, get_named_key w client_name caps) in
    let! addrs := get get_mon_addresses in
    let! fsid := get get_fsid in
    relation_data_update (rel_id relation)
      [("fsid", fsid);
       ("mon-hosts", json_dumps addrs);
       ("keyring", client_key);
       ("volume", volume_name);
       ("client", client_name);
       ("cluster-id", cluster_id)] >>
    ret true.

(** [event.defer()] *)
Definition defer : M unit := emit Defer.

Definition _on_ceph_nfs_connected (event_relation : Relation) : M unit :=
  let! leader := get is_leader in
  if negb leader then ret tt
  else
    let! osds := get osd_count in
    if (osds =? 0)%nat then
      logger INFO "Storage not available, deferring event." [] >>
      defer
    else
      logger INFO "Processing ceph-nfs connected" [] >>
      let! serviced := _service_relation event_relation in
      if negb serviced then
        logger ERROR
          "An error occurred while handling the ceph-nfs relation, deferring." [] >>
        defer
      else ret tt.

Definition _on_ceph_nfs_reconcile (event_relation : Relation) : M unit :=
  _on_ceph_nfs_connected event_relation.

(** [for service in nfs_services: try: disable_nfs except: log; raise] *)
Fixpoint disable_all (cluster_id : string) (nfs_services : list svc) : M unit :=
  match nfs_services with
  | [] => ret tt
  | service :: rest =>
      let host := location service in
      try_except (call_disable_nfs host cluster_id)
        (λ ex,
           logger ERROR "Could not disable nfs (cluster_id '%s') on host '%s': %s"
             [AStr cluster_id; AStr host; AStr ex] >>
           raise ex) >>
      disable_all cluster_id rest
  end.

(** The list comprehension of [_remove_nfs_cluster]. *)
Definition departing_services (cluster_id : string) (svcs : list svc) : list svc :=
  filter (λ s, service s = "nfs" ∧ group_id s = Some cluster_id) svcs.

Definition _remove_nfs_cluster (cluster_id : string) : M unit :=
  let! services := list_services in
  disable_all cluster_id (departing_services cluster_id services).

(** [for relation in other_relations: self._service_relation(relation)] *)
Fixpoint service_each (rels : list Relation) : M unit :=
  match rels with
  | [] => ret tt
  | relation :: rest => _service_relation relation >> service_each rest
  end.

Definition other_relations (event_relation : Relation) (rels : list Relation)
    : list Relation :=
  filter (λ r, rel_id r ≠ rel_id event_relation) rels.

Definition _on_ceph_nfs_departed (event_relation : Relation) : M unit :=
  let! leader := get is_leader in
  if negb leader then ret tt
  else
    logger INFO "Processing ceph-nfs departed" [] >>
    let cluster_id := _cluster_id event_relation in
    _remove_nfs_cluster cluster_id >>
    let client_name := "client." +:+ app_name event_relation in
    emit (RemoveNamedKey client_name) >>
    let! rels := get relations in
    service_each (other_relations event_relation rels).

(** The value of the local [nodes_in_cluster] when [_ensure_nfs_cluster]
    returns: the member count the reconciliation ends with. *)
Definition final_nodes (cluster_id : string) : M nat :=
  let! services := list_services in
  let nodes_in_cluster := length (nfs_services cluster_id services) in
  if (3 <=? nodes_in_cluster)%nat then
    logger INFO "NFS Cluster '%s' already exists, and there are >= 3 nodes in it."
      [AStr cluster_id] >>
    ret nodes_in_cluster
  else enroll cluster_id (candidates services) nodes_in_cluster.

End Handler.

(** ** Test doubles

    Concrete collaborators on which the handler is run. *)

(** Modelled from the spec: [microceph.enable_nfs] is not under [src/].
    "Enable(host, group_id, public_address) -> () or error — enrolls a host
    into a group": on success an nfs instance of the group appears at the
    host; hosts in [faulty] answer with an error. *)
Definition spec_enable (faulty : list string) (w : world)
    (host cluster_id public_addr : string) : actuation :=
  if bool_decide (host ∈ faulty) then Fails ("enable_nfs failed on " +:+ host)
  else Done (services w ++ [Svc "nfs" host (Some cluster_id)]).

(** Modelled from the spec: [microceph.disable_nfs] is not under [src/].
    "Disable(host, group_id) -> () or error — removes a host from a group":
    on success the nfs instance of the group is gone from the host. *)
Definition spec_disable (faulty : list string) (w : world)
    (host cluster_id : string) : actuation :=
  if bool_decide (host ∈ faulty) then Fails ("disable_nfs failed on " +:+ host)
  else Done (filter (λ s, ¬ (service s = "nfs" ∧ location s = host ∧
                             group_id s = Some cluster_id)) (services w)).

(** Enable fails on [enable_faulty], disable on [disable_faulty]; a set is
    iterated in the order of first insertion. *)
Definition double (enable_faulty disable_faulty : list string) : Collaborators := {|
  set_iter := remove_dups;
  enable_nfs := spec_enable enable_faulty;
  disable_nfs := spec_disable disable_faulty;
  get_named_key := λ _ client_name _, "key:" +:+ client_name;
  get_fsid := λ _, "f5-1d";
  get_mon_addresses := λ _, ["10.0.0.1"; "10.0.0.2"];
  json_dumps := λ l, "[" +:+ String.concat ", " l +:+ "]"
|}.

(** Modelled from the spec: [microceph.enable_nfs] is not under [src/].
    "Enable(host, group_id, public_address) -> () or error — enrolls a host
    into a group": the spec fixes no place for the new instance in the
    listing; this Enable lists it first. *)
Definition spec_enable_first (w : world)
    (host cluster_id public_addr : string) : actuation :=
  Done (Svc "nfs" host (Some cluster_id) :: services w).

(** Collaborators that never fail and list a new instance first. *)
Definition listing_first : Collaborators := {|
  set_iter := remove_dups;
  enable_nfs := spec_enable_first;
  disable_nfs := spec_disable [];
  get_named_key := λ _ client_name _, "key:" +:+ client_name;
  get_fsid := λ _, "f5-1d";
  get_mon_addresses := λ _, ["10.0.0.1"; "10.0.0.2"];
  json_dumps := λ l, "[" +:+ String.concat ", " l +:+ "]"
|}.

Definition peer (n host addr : string) : peer_unit :=
  PeerUnit n (<[n := host]> {["public-address" := addr]}).

(** Five hosts running an osd each, all with a public address except [h5]. *)
Definition five_peers : list peer_unit :=
  [peer "microceph/1" "h1" "10.1.0.1"; peer "microceph/2" "h2" "10.1.0.2";
   peer "microceph/3" "h3" "10.1.0.3"; peer "microceph/4" "h4" "10.1.0.4";
   PeerUnit "microceph/5" {["microceph/5" := "h5"]}].

Definition osds : list svc :=
  (λ h, Svc "osd" h None) <$> ["h1"; "h2"; "h3"; "h4"; "h5"].

Definition world0 (svcs : list svc) (rels : list Relation) : world :=
  World true 3 svcs (Some five_peers) rels ∅ [] [] [].

Definition nfs_on (cluster_id : string) (hosts : list string) : list svc :=
  (λ h, Svc "nfs" h (Some cluster_id)) <$> hosts.

Definition rel_g1 : Relation := MkRelation 1 "g1".
Definition rel_g2 : Relation := MkRelation 2 "g2".

(** No nfs anywhere yet. *)
Definition fresh : world := world0 osds [rel_g1].

(** The same on a unit that is not the leader. *)
Definition follower : world :=
  World false 3 osds (Some five_peers) [rel_g1] ∅ [] [] [].

(** Group g1 is full on h1, h2, h3. *)
Definition full_g1 : world :=
  world0 (osds ++ nfs_on "g1" ["h1"; "h2"; "h3"]) [rel_g1].

(** Group g1 runs on h1 and h2. *)
Definition two_g1 : world :=
  world0 (osds ++ nfs_on "g1" ["h1"; "h2"]) [rel_g1; rel_g2].

(** Group g1 is full on h1, h2, h3 and group g2 has h4 alone: its other
    candidate, h5, has no public address. *)
Definition crowded : world :=
  world0 (osds ++ nfs_on "g1" ["h1"; "h2"; "h3"] ++ nfs_on "g2" ["h4"])
         [rel_g1; rel_g2].

(** The leader while the storage cluster has no OSD yet. *)
Definition no_storage : world :=
  World true 0 osds (Some five_peers) [rel_g1] ∅ [] [] [].

(** The leader before the peers relation exists. *)
Definition no_peers : world :=
  World true 3 osds None [rel_g1] ∅ [] [] [].

(** Only h1 and h2 run a service; h3 and h4 are peers with an address. *)
Definition sparse : world :=
  world0 [Svc "osd" "h1" None; Svc "osd" "h2" None] [rel_g1].

(** The peers relation of [fresh], iterated in the opposite order. *)
Definition shuffled : world :=
  World true 3 osds (Some (reverse five_peers)) [rel_g1] ∅ [] [] [].

(** ** Observations on a run *)

(** What a computation appends to the trace and to the log. *)
Definition new_events {A} (m : M A) (w : world) : list event :=
  drop (length (trace w)) (trace (world_after m w)).

Definition new_log {A} (m : M A) (w : world) : list log_record :=
  drop (length (log w)) (log (world_after m w)).

(** Hosts of the Enable calls of a trace: all of them, and those that
    returned. *)
Definition enable_hosts (evs : list event) : list string :=
  omap (λ e, match e with EnableNfs h _ _ _ => Some h | _ => None end) evs.

Definition enabled_hosts (evs : list event) : list string :=
  omap (λ e, match e with EnableNfs h _ _ true => Some h | _ => None end) evs.

Definition is_disable (e : event) : bool :=
  match e with DisableNfs _ _ _ => true | _ => false end.

(** Writes to the published data of relation [rel]. *)
Definition is_write_on (rel : nat) (e : event) : bool :=
  match e with
  | RelationClear r | RelationUpdate r _ => bool_decide (r = rel)
  | _ => false
  end.

Definition writes_on (rel : nat) (evs : list event) : nat :=
  length (filter (λ e, is_write_on rel e = true) evs).

(** The parts of the world no actuator touches. *)
Definition same_model (w w' : world) : Prop :=
  is_leader w' = is_leader w ∧ osd_count w' = osd_count w ∧
  peers w' = peers w ∧ relations w' = relations w ∧
  relation_data w' = relation_data w ∧ fs_volumes w' = fs_volumes w.

(** [w'] is [w] after the events [evs] and the log records [ls]. *)
Definition grows (w w' : world) (evs : list event) (ls : list log_record) : Prop :=
  trace w' = trace w ++ evs ∧ log w' = log w ++ ls.

(** The records the enrollment loop leaves about a candidate. *)
Definition warn_no_address (candidate : string) : log_record :=
  Log WARNING "Could not find the public address of '%s' in the peer relation data."
      [AStr candidate].

Definition error_enable (cluster_id candidate ex : string) : log_record :=
  Log ERROR "Could not enable nfs (cluster_id '%s') on host '%s': %s"
      [AStr cluster_id; AStr candidate; AStr ex].

Definition error_disable (cluster_id host ex : string) : log_record :=
  Log ERROR "Could not disable nfs (cluster_id '%s') on host '%s': %s"
      [AStr cluster_id; AStr host; AStr ex].

(** The peers relation gives the candidate an address the loop can use:
    the lookup of [_get_public_address] returns a non-empty string. *)
Definition addressable (w : world) (candidate : string) : bool :=
  match result_of (_get_public_address candidate) w with
  | Returned public_addr => truthy public_addr
  | Raised _ => false
  end.

(** What the loop leaves about a candidate it visits, by the result of the
    lookup: an Enable call with the address found; the warning when the
    lookup finds no address; the logged exception when the lookup raises. *)
Definition visited_as (w : world) (cluster_id candidate : string)
    (evs : list event) (ls : list log_record) : Prop :=
  match result_of (_get_public_address candidate) w with
  | Returned public_addr =>
      if truthy public_addr
      then ∃ ok, EnableNfs candidate cluster_id (default "" public_addr) ok ∈ evs
      else warn_no_address candidate ∈ ls
  | Raised ex => error_enable cluster_id candidate ex ∈ ls
  end.

(** ** Observations on the loops

    Definitions the statements below are written with. *)

Section Observations.
Context `{Collaborators}.

(** The four ways a pass over one candidate can go. *)
Inductive pass :=
  | LookupRaised (ex : string)
  | Unresolved
  | EnableRaised (addr ex : string)
  | Enrolled (addr : string) (inventory : list svc).

Definition pass_on (cluster_id candidate : string) (w : world) : pass :=
  match result_of (_get_public_address candidate) w with
  | Raised ex => LookupRaised ex
  | Returned public_addr =>
      if truthy public_addr then
        let addr := default "" public_addr in
        match enable_nfs w candidate cluster_id addr with
        | Done inv => Enrolled addr inv
        | Fails ex => EnableRaised addr ex
        end
      else Unresolved
  end.

Definition pass_events (cluster_id candidate : string) (p : pass) : list event :=
  match p with
  | EnableRaised addr _ => [EnableNfs candidate cluster_id addr false]
  | Enrolled addr _ => [EnableNfs candidate cluster_id addr true]
  | _ => []
  end.

Definition pass_log (cluster_id candidate : string) (p : pass) : list log_record :=
  match p with
  | LookupRaised ex | EnableRaised _ ex => [error_enable cluster_id candidate ex]
  | Unresolved => [warn_no_address candidate]
  | Enrolled _ _ => []
  end.

Definition pass_world (cluster_id candidate : string) (p : pass) (w : world) : world :=
  let w1 := match p with Enrolled _ inv => set_services inv w | _ => w end in
  set_log (log w ++ pass_log cluster_id candidate p)
    (set_trace (trace w ++ pass_events cluster_id candidate p) w1).

(** What a run of the loop from count [n] leaves: the events are Enable calls
    for the cluster on candidates, in candidate order and at most one per
    list position; the count grows by the calls that returned and stops at 3,
    with nothing after the call that reached it; the inventory changes only
    through an Enable that returned. *)
Definition enroll_post (cluster_id : string) (cands : list string) (n : nat)
    (w : world) (n' : nat) (w' : world)
    (evs : list event) (ls : list log_record) : Prop :=
  grows w w' evs ls ∧ same_model w w' ∧
  Forall (λ e, ∃ h a ok, e = EnableNfs h cluster_id a ok) evs ∧
  enable_hosts evs `sublist_of` cands ∧
  n' = n + length (enabled_hosts evs) ∧ n' ≤ 3 ∧
  (n' = 3 → ∃ evs0 h a, evs = evs0 ++ [EnableNfs h cluster_id a true]) ∧
  (enabled_hosts evs = [] → services w' = services w).

(** Under an Enable that only ever adds to the inventory, the loop removes
    nothing from it. *)
Definition enable_only_adds : Prop :=
  ∀ w host cluster_id addr inv,
    enable_nfs w host cluster_id addr = Done inv → services w ⊆ inv.

Definition info_full (cluster_id : string) : log_record :=
  Log INFO "NFS Cluster '%s' already exists, and there are >= 3 nodes in it."
      [AStr cluster_id].

(** The record [_ensure_nfs_cluster] logs after the loop. *)
Definition verdict (cluster_id : string) (nodes_in_cluster : nat) : log_record :=
  if nodes_in_cluster =? 0 then
    Log ERROR "Could not create NFS Cluster '%s' on any host" [AStr cluster_id]
  else if nodes_in_cluster <? 3 then
    Log WARNING "NFS cluster '%s' is enabled only on %d / 3 nodes."
        [AStr cluster_id; AInt nodes_in_cluster]
  else Log INFO "NFS cluster '%s' is enabled on 3 / 3 nodes." [AStr cluster_id].

Definition listed (w : world) : world := set_trace (trace w ++ [ListServices]) w.

Definition disabled (cluster_id : string) (s : svc) : event :=
  DisableNfs (location s) cluster_id true.

(** The record [_service_relation] publishes. *)
Definition published (relation : Relation) (fsid mon_hosts keyring : string)
    : list (string * string) :=
  [("fsid", fsid);
   ("mon-hosts", mon_hosts);
   ("keyring", keyring);
   ("volume", _cluster_id relation +:+ "-vol");
   ("client", "client." +:+ app_name relation);
   ("cluster-id", _cluster_id relation)].

(** The world in which a successful [_service_relation] reads the key, the
    monitor addresses and the fsid: after the reconciliation, the volume
    step and the key request, before the write. *)
Definition publishing (relation : Relation) (w : world) : world :=
  world_after
    (_ensure_nfs_cluster (_cluster_id relation) >>
     _ensure_fs_volume (_cluster_id relation +:+ "-vol") >>
     emit (GetNamedKey ("client." +:+ app_name relation) caps)) w.

(** Calls about the volume and the key, which precede the write. *)
Definition is_storage_call (e : event) : bool :=
  match e with
  | ListFsVolumes | CreateFsVolume _ | GetNamedKey _ _ => true
  | _ => false
  end.

(** The parts of the world [_service_relation] leaves alone after the
    membership step. *)
Definition same_cluster (w w' : world) : Prop :=
  is_leader w' = is_leader w ∧ osd_count w' = osd_count w ∧
  peers w' = peers w ∧ relations w' = relations w ∧
  services w' = services w ∧ log w' = log w.

(** The world in which the depart handler starts the teardown. *)
Definition departing (w : world) : world :=
  set_log (log w ++ [Log INFO "Processing ceph-nfs departed" []]) w.

(** Modelled from the spec: [microceph.enable_nfs] is not under [src/].
    "Enable(host, group_id, public_address) -> () or error — enrolls a host
    into a group": a call that returns has added one nfs instance of the
    group at the host to the inventory, and nothing else.  Where in the
    listing the new instance appears is left open: the inventory is the old
    one with the instance added, up to order. *)
Definition enable_as_spec : Prop :=
  ∀ w host cluster_id addr inv,
    enable_nfs w host cluster_id addr = Done inv →
    inv ≡ₚ services w ++ [Svc "nfs" host (Some cluster_id)].

(** Modelled from the spec: [microceph.disable_nfs] is not under [src/].
    "Disable(host, group_id) -> () or error — removes a host from a group":
    a call that returns has removed the nfs instance of the group at the
    host from the inventory, and nothing else. *)
Definition disable_as_spec : Prop :=
  ∀ w host cluster_id inv,
    disable_nfs w host cluster_id = Done inv →
    inv = filter (λ s, ¬ (service s = "nfs" ∧ location s = host ∧
                          group_id s = Some cluster_id)) (services w).

(** The host universe as the spec words it for the candidate set ("the
    complete known host topology ... supplied via peer topology by the
    Address Resolver"): the hosts the units of the peers relation name. *)
Definition spec_all_hosts (w : world) : list string :=
  match peers w with
  | None => []
  | Some units => remove_dups (omap (λ u, unit_data u !! unit_name u) units)
  end.

(** The candidate set as the spec words it: that universe minus the hosts
    already running the service kind for any group. *)
Definition spec_candidates (w : world) : list string :=
  filter (λ h, h ∉ exclude_hosts (services w)) (spec_all_hosts w).

(** The world in which the connect handler starts servicing its relation. *)
Definition connecting (w : world) : world :=
  set_log (log w ++ [Log INFO "Processing ceph-nfs connected" []]) w.

(** The calls [_service_relation] may make for a relation: the inventory
    query, Enable for its cluster, the volume and key calls with its names,
    and writes to its own published data. *)
Definition reconcile_event (relation : Relation) (e : event) : Prop :=
  match e with
  | ListServices | ListFsVolumes => True
  | EnableNfs _ cluster_id _ _ => cluster_id = _cluster_id relation
  | CreateFsVolume volume_name => volume_name = _cluster_id relation +:+ "-vol"
  | GetNamedKey client_name cs =>
      client_name = "client." +:+ app_name relation ∧ cs = caps
  | RelationClear rel | RelationUpdate rel _ => rel = rel_id relation
  | DisableNfs _ _ _ | RemoveNamedKey _ | Defer => False
  end.

(** The calls the depart handler may make: the teardown of the departing
    cluster, the revocation of its key, and the calls of servicing one of
    the other relations. *)
Definition departed_event (event_relation : Relation) (others : list Relation)
    (e : event) : Prop :=
  match e with
  | DisableNfs _ cluster_id _ => cluster_id = _cluster_id event_relation
  | RemoveNamedKey client_name =>
      client_name = "client." +:+ app_name event_relation
  | Defer => False
  | _ => e = ListServices ∨ ∃ r, r ∈ others ∧ reconcile_event r e
  end.

(** No host runs two nfs instances. *)
Definition one_nfs_per_host (svcs : list svc) : Prop :=
  NoDup (exclude_hosts svcs).

(** The nfs instance a returned Enable stands for. *)
Definition enrolled (cluster_id host : string) : svc :=
  Svc "nfs" host (Some cluster_id).

(** The unit names the host in its data bag. *)
Definition names_host (hostname : string) (u : peer_unit) : Prop :=
  unit_data u !! unit_name u = Some hostname.

(** The calls about volume and key of a successful [_service_relation]. *)
Definition storage_calls (relation : Relation) (volumes : list string)
    : list event :=
  let volume_name := _cluster_id relation +:+ "-vol" in
  [ListFsVolumes] ++
  (if bool_decide (volume_name ∈ volumes) then [] else [CreateFsVolume volume_name]) ++
  [GetNamedKey ("client." +:+ app_name relation) caps].

(** What the AttributeError on a missing peers relation says. *)
Definition no_peers_error : string :=
  "'NoneType' object has no attribute 'units'".

(** An Enable call as the loop makes it: for the cluster being reconciled,
    with the non-empty address the peers relation gives for the host. *)
Definition resolved (w : world) (cluster_id : string) (e : event) : Prop :=
  match e with
  | EnableNfs host cid public_addr _ =>
      cid = cluster_id ∧ public_addr ≠ "" ∧
      ∃ units, peers w = Some units ∧
               find_public_address host units = Some public_addr
  | _ => True
  end.

(** Hosts of the Disable calls of a trace that returned. *)
Definition disabled_hosts (evs : list event) : list string :=
  omap (λ e, match e with DisableNfs h _ true => Some h | _ => None end) evs.

(** The host each unit of the peers relation names, where it names one. *)
Definition named_hosts (units : list peer_unit) : list string :=
  omap (λ u, unit_data u !! unit_name u) units.

(** An inventory entry that is an nfs instance of the group. *)
Definition member_of (cluster_id : string) (s : svc) : Prop :=
  service s = "nfs" ∧ group_id s = Some cluster_id.

End Observations.

(** ** Basic facts *)

Lemma grows_new_events {A} (m : M A) w evs ls :
  grows w (world_after m w) evs ls → new_events m w = evs ∧ new_log m w = ls.
Proof.
  intros [Ht Hl]. unfold new_events, new_log. rewrite Ht, Hl.
  by rewrite !drop_app_length.
Qed.

Lemma grows_refl w : grows w w [] [].
Proof. split; by rewrite app_nil_r. Qed.

Lemma grows_trans w1 w2 w3 e1 l1 e2 l2 :
  grows w1 w2 e1 l1 → grows w2 w3 e2 l2 → grows w1 w3 (e1 ++ e2) (l1 ++ l2).
Proof.
  intros [A1 B1] [A2 B2]. split.
  - by rewrite A2, A1, app_assoc.
  - by rewrite B2, B1, app_assoc.
Qed.

Lemma grows_inj w w' evs ls evs' ls' :
  grows w w' evs ls → grows w w' evs' ls' → evs = evs' ∧ ls = ls'.
Proof.
  intros [Ht Hl] [Ht' Hl']. rewrite Ht in Ht'. rewrite Hl in Hl'.
  split; by eapply app_inv_head.
Qed.

Lemma same_model_refl w : same_model w w.
Proof. by repeat split. Qed.

Lemma same_model_trans w1 w2 w3 :
  same_model w1 w2 → same_model w2 w3 → same_model w1 w3.
Proof. unfold same_model. intros (?&?&?&?&?&?) (?&?&?&?&?&?). repeat split; congruence. Qed.

Lemma app_assoc3 {A} (t a b c : list A) :
  ((t ++ a) ++ b) ++ c = t ++ (a ++ b ++ c).
Proof. by rewrite <- !app_assoc. Qed.

Lemma app_assoc4 {A} (t a b c d : list A) :
  (((t ++ a) ++ b) ++ c) ++ d = t ++ (a ++ b ++ c ++ d).
Proof. by rewrite <- !app_assoc. Qed.

Lemma filter_all {A} (P : A → Prop) `{∀ x, Decision (P x)} (l : list A) :
  Forall P l → filter P l = l.
Proof.
  induction 1 as [|x l Hx _ IH]; [done|]. by rewrite filter_cons_True, IH.
Qed.

(** In a list whose image under a partial map has no duplicates, two members
    with the same image are the same member. *)
Lemma omap_NoDup_inj {A B} (f : A → option B) (l : list A) x y z :
  NoDup (omap f l) → x ∈ l → y ∈ l → f x = Some z → f y = Some z → x = y.
Proof.
  induction l as [|a l IH]; intros Hnd Hx Hy Hfx Hfy.
  - by apply elem_of_nil in Hx.
  - cbn in Hnd.
    assert (Hin : ∀ u, u ∈ l → f u = Some z → z ∈ omap f l).
    { intros u Hu Hfu. apply list_elem_of_omap. eauto. }
    apply elem_of_cons in Hx as [->|Hx]; apply elem_of_cons in Hy as [->|Hy].
    + done.
    + rewrite Hfx in Hnd. apply NoDup_cons in Hnd as [Hz _].
      destruct Hz. eauto.
    + rewrite Hfy in Hnd. apply NoDup_cons in Hnd as [Hz _].
      destruct Hz. eauto.
    + apply IH; try done. destruct (f a); [by apply NoDup_cons in Hnd as [_ ?]|done].
Qed.

Lemma filter_none {A} (P : A → Prop) `{∀ x, Decision (P x)} (l : list A) :
  Forall (λ x, ¬ P x) l → filter P l = [].
Proof.
  induction 1 as [|x l Hx _ IH]; [done|]. by rewrite filter_cons_False.
Qed.



Section Theory.
Context `{Collaborators}.

(** *** One pass of the enrollment loop *)

(** The loop, one candidate at a time. *)
Lemma enroll_cons cluster_id candidate rest n w :
  enroll cluster_id (candidate :: rest) n w =
    let p := pass_on cluster_id candidate w in
    let w1 := pass_world cluster_id candidate p w in
    match p with
    | Enrolled _ _ =>
        if (n + 1 =? 3)%nat then (Returned (n + 1), w1)
        else enroll cluster_id rest (n + 1) w1
    | _ => enroll cluster_id rest n w1
    end.
Proof.
  cbn [enroll]. unfold pass_on, pass_world, bind, try_except, enroll_body, bind,
    result_of, _get_public_address, call_enable_nfs, logger, ret.
  destruct (peers w) as [units|]; cbn.
  - destruct (truthy (find_public_address candidate units)); cbn.
    + destruct (enable_nfs w candidate cluster_id _); cbn.
      * destruct (n + 1 =? 3)%nat; cbn;
          rewrite ?app_nil_r; unfold set_log, set_trace, set_services; cbn;
          rewrite ?app_nil_r; reflexivity.
      * reflexivity.
    + unfold set_log, set_trace; cbn. rewrite app_nil_r.
      destruct w; reflexivity.
  - unfold set_log, set_trace; cbn. rewrite app_nil_r. destruct w; reflexivity.
Qed.

Lemma pass_world_grows cluster_id candidate p w :
  grows w (pass_world cluster_id candidate p w)
    (pass_events cluster_id candidate p) (pass_log cluster_id candidate p).
Proof. by destruct p. Qed.

Lemma pass_world_same_model cluster_id candidate p w :
  same_model w (pass_world cluster_id candidate p w).
Proof. by destruct p. Qed.

(** *** The enrollment loop *)

Lemma candidates_NoDup svcs : set_iter_ok → NoDup (candidates svcs).
Proof. intros Hset. apply NoDup_filter, Hset. Qed.

Lemma enroll_run cluster_id cands n w :
  n < 3 →
  ∃ n' w' evs ls,
    enroll cluster_id cands n w = (Returned n', w') ∧
    enroll_post cluster_id cands n w n' w' evs ls.
Proof.
  revert n w. induction cands as [|c rest IH]; intros n w Hn.
  - exists n, w, [], []. split; [done|].
    unfold enroll_post. split_and!;
      [apply grows_refl|apply same_model_refl|constructor|constructor
      |cbn; lia|lia|lia|done].
  - rewrite enroll_cons. cbv zeta.
    pose proof (pass_world_grows cluster_id c (pass_on cluster_id c w) w) as Hg.
    pose proof (pass_world_same_model cluster_id c (pass_on cluster_id c w) w) as Hm.
    set (w1 := pass_world cluster_id c (pass_on cluster_id c w) w) in *.
    assert (Hskip : ∀ p, pass_on cluster_id c w = p →
              enabled_hosts (pass_events cluster_id c p) = [] →
              services w1 = services w →
              ∃ n' w' evs ls,
                enroll cluster_id rest n w1 = (Returned n', w') ∧
                enroll_post cluster_id (c :: rest) n w n' w' evs ls).
    { intros p Hp Hnone Hsv. rewrite Hp in Hg.
      destruct (IH n w1 Hn) as (n' & w' & evs & ls & Hrun & Hg' & Hm' & Hall
                                 & Hsub & Hcnt & Hle & Hlast & Hinv).
      exists n', w', (pass_events cluster_id c p ++ evs),
        (pass_log cluster_id c p ++ ls).
      split; [done|]. unfold enroll_post. split_and!.
      - exact (grows_trans _ _ _ _ _ _ _ Hg Hg').
      - exact (same_model_trans _ _ _ Hm Hm').
      - apply Forall_app. split; [|done]. destruct p; cbn; repeat constructor; eauto.
      - unfold enable_hosts in *. rewrite omap_app.
        destruct p; cbn; try (by apply sublist_cons); by apply sublist_skip.
      - unfold enabled_hosts in *. rewrite omap_app, Hnone. done.
      - done.
      - intros E. destruct (Hlast E) as (evs0 & h & a & ->).
        exists (pass_events cluster_id c p ++ evs0), h, a. by rewrite app_assoc.
      - unfold enabled_hosts in *. rewrite omap_app, Hnone. cbn.
        intros E. rewrite (Hinv E). done. }
    destruct (pass_on cluster_id c w) as [ex| |addr ex|addr inv] eqn:Hp.
    + apply (Hskip _ eq_refl); done.
    + apply (Hskip _ eq_refl); done.
    + apply (Hskip _ eq_refl); done.
    + destruct (n + 1 =? 3)%nat eqn:E.
      * apply Nat.eqb_eq in E.
        exists (n + 1), w1, [EnableNfs c cluster_id addr true], [].
        split; [done|]. unfold enroll_post. split_and!.
        -- exact Hg.
        -- exact Hm.
        -- repeat constructor. eauto.
        -- apply (sublist_skip c [] rest), sublist_nil_l.
        -- done.
        -- lia.
        -- intros _. by exists [], c, addr.
        -- cbn. discriminate.
      * apply Nat.eqb_neq in E.
        destruct (IH (n + 1) w1 ltac:(lia)) as (n' & w' & evs & ls & Hrun & Hg' & Hm'
                                 & Hall & Hsub & Hcnt & Hle & Hlast & Hinv).
        exists n', w', (EnableNfs c cluster_id addr true :: evs), ls.
        split; [done|]. unfold enroll_post. split_and!.
        -- apply (grows_trans _ _ _ _ _ _ _ Hg Hg').
        -- exact (same_model_trans _ _ _ Hm Hm').
        -- constructor; [by eexists _, _, _|done].
        -- by apply (sublist_skip c).
        -- change (enabled_hosts (EnableNfs c cluster_id addr true :: evs))
             with (c :: enabled_hosts evs). cbn. lia.
        -- done.
        -- intros E3. destruct (Hlast E3) as (evs0 & h & a & ->).
           by exists (EnableNfs c cluster_id addr true :: evs0), h, a.
        -- cbn. discriminate.
Qed.

Lemma pass_on_enrolled cluster_id c w addr inv :
  pass_on cluster_id c w = Enrolled addr inv →
  enable_nfs w c cluster_id addr = Done inv.
Proof.
  unfold pass_on, result_of, _get_public_address.
  destruct (peers w) as [units|]; cbn; [|done].
  destruct (truthy _); [|done].
  destruct (enable_nfs w c cluster_id _) eqn:E; [|done].
  intros [= <- <-]. done.
Qed.

Lemma enroll_keeps_services cluster_id cands n w :
  enable_only_adds →
  services w ⊆ services (world_after (enroll cluster_id cands n) w).
Proof.
  intros Hadd. revert n w. induction cands as [|c rest IH]; intros n w; [done|].
  unfold world_after in *. rewrite enroll_cons. cbv zeta.
  destruct (pass_on cluster_id c w) as [ex| |addr ex|addr inv] eqn:Hp;
    try (etrans; [|apply IH]; done).
  pose proof (Hadd _ _ _ _ _ (pass_on_enrolled _ _ _ _ _ Hp)) as Hinc.
  destruct (n + 1 =? 3); [done|]. etrans; [|apply IH]. done.
Qed.

(** *** The candidates the loop visits *)

Lemma lookup_same_peers c w w1 :
  peers w1 = peers w →
  result_of (_get_public_address c) w1 = result_of (_get_public_address c) w.
Proof.
  intros Hp. unfold result_of, _get_public_address. rewrite Hp.
  by destruct (peers w).
Qed.

Lemma addressable_same_peers c w w1 :
  peers w1 = peers w → addressable w1 c = addressable w c.
Proof. intros Hp. unfold addressable. by rewrite (lookup_same_peers c w w1 Hp). Qed.

Lemma visited_as_mono w w1 cluster_id c evs ls evs' ls' :
  peers w1 = peers w → evs ⊆ evs' → ls ⊆ ls' →
  visited_as w1 cluster_id c evs ls → visited_as w cluster_id c evs' ls'.
Proof.
  intros Hp He Hl. unfold visited_as. rewrite (lookup_same_peers c w w1 Hp).
  destruct (result_of (_get_public_address c) w) as [v|ex]; [|by apply Hl].
  destruct (truthy v); [|by apply Hl].
  intros [ok Hin]. exists ok. by apply He.
Qed.

(** One pass leaves what a visit leaves, and calls Enable exactly when the
    candidate has an address. *)
Lemma pass_on_visited cluster_id c w :
  let p := pass_on cluster_id c w in
  visited_as w cluster_id c (pass_events cluster_id c p) (pass_log cluster_id c p) ∧
  enable_hosts (pass_events cluster_id c p) = if addressable w c then [c] else [].
Proof.
  unfold pass_on, visited_as, addressable.
  destruct (result_of (_get_public_address c) w) as [v|ex]; cbn.
  - destruct (truthy v); cbn.
    + destruct (enable_nfs w c cluster_id (default "" v)); cbn;
        (split; [eexists; apply list_elem_of_here|done]).
    + split; [apply list_elem_of_here|done].
  - split; [apply list_elem_of_here|done].
Qed.

(** The loop visits a prefix of the candidate list, and stops short of the
    end only when the count has reached three; it calls Enable on exactly the
    visited candidates that have an address, in candidate order. *)
Lemma enroll_visits cluster_id cands n w :
  ∃ n' w' evs ls visited unvisited,
    enroll cluster_id cands n w = (Returned n', w') ∧ grows w w' evs ls ∧
    cands = visited ++ unvisited ∧
    enable_hosts evs = filter (λ c, addressable w c = true) visited ∧
    (unvisited ≠ [] → n' = 3) ∧
    Forall (λ c, visited_as w cluster_id c evs ls) visited.
Proof.
  revert n w. induction cands as [|c rest IH]; intros n w.
  - exists n, w, [], [], [], [].
    split_and!; [done|apply grows_refl|done|done|done|constructor].
  - rewrite enroll_cons. cbv zeta.
    pose proof (pass_world_grows cluster_id c (pass_on cluster_id c w) w) as Hg.
    pose proof (pass_world_same_model cluster_id c (pass_on cluster_id c w) w)
      as (_ & _ & Hpeers & _).
    destruct (pass_on_visited cluster_id c w) as [Hv Hen].
    set (p := pass_on cluster_id c w) in *.
    set (w1 := pass_world cluster_id c p w) in *.
    assert (Hstep : ∀ m,
              ∃ n' w' evs ls visited unvisited,
                enroll cluster_id rest m w1 = (Returned n', w') ∧ grows w w' evs ls ∧
                c :: rest = visited ++ unvisited ∧
                enable_hosts evs = filter (λ c, addressable w c = true) visited ∧
                (unvisited ≠ [] → n' = 3) ∧
                Forall (λ c, visited_as w cluster_id c evs ls) visited).
    { intros m.
      destruct (IH m w1)
        as (n' & w' & evs & ls & visited & unvisited & Hrun & Hg' & -> & Hhosts
            & Hstop & Hall).
      exists n', w', (pass_events cluster_id c p ++ evs),
        (pass_log cluster_id c p ++ ls), (c :: visited), unvisited.
      split_and!.
      - done.
      - exact (grows_trans _ _ _ _ _ _ _ Hg Hg').
      - done.
      - unfold enable_hosts in *. rewrite omap_app, Hen, Hhosts, filter_cons.
        rewrite (list_filter_iff (λ c, addressable w1 c = true)
                   (λ c, addressable w c = true))
          by (intros x; by rewrite (addressable_same_peers x w w1 Hpeers)).
        destruct (addressable w c); [by rewrite decide_True|by rewrite decide_False].
      - done.
      - constructor.
        + eapply (visited_as_mono w w); [done| | |exact Hv];
            intros x Hx; apply elem_of_app; by left.
        + eapply Forall_impl; [exact Hall|]. intros x.
          apply visited_as_mono; [done| |]; intros y Hy; apply elem_of_app; by right. }
    destruct p as [ex| |addr ex|addr inv] eqn:Hp; try apply Hstep.
    destruct (n + 1 =? 3)%nat eqn:E; [|apply Hstep].
    apply Nat.eqb_eq in E.
    exists (n + 1), w1, [EnableNfs c cluster_id addr true], [], [c], rest.
    split_and!; [done|exact Hg|done| |done|by repeat constructor].
    cbn in Hen. rewrite filter_cons, filter_nil.
    destruct (addressable w c); [by rewrite decide_True|done].
Qed.

(** *** [_ensure_nfs_cluster] *)

Lemma list_services_run w : list_services w = (Returned (services w), listed w).
Proof. done. Qed.

(** The group is full: the early return. *)
Lemma ensure_full cluster_id w :
  3 ≤ length (nfs_services cluster_id (services w)) →
  let w' := set_log (log w ++ [info_full cluster_id]) (listed w) in
  _ensure_nfs_cluster cluster_id w = (Returned true, w') ∧
  final_nodes cluster_id w =
    (Returned (length (nfs_services cluster_id (services w))), w').
Proof.
  intros Hfull. unfold _ensure_nfs_cluster, final_nodes, bind.
  rewrite list_services_run. apply Nat.leb_le in Hfull. rewrite Hfull. done.
Qed.

Lemma ensure_full_services cluster_id w :
  3 ≤ length (nfs_services cluster_id (services w)) →
  services (world_after (_ensure_nfs_cluster cluster_id) w) = services w.
Proof.
  intros Hfull. unfold world_after.
  by destruct (ensure_full cluster_id w Hfull) as [-> _].
Qed.

(** The group is short of members: the loop runs over the candidates. *)
Lemma ensure_short cluster_id w :
  let pre := length (nfs_services cluster_id (services w)) in
  pre < 3 →
  ∃ n' w0 evs ls,
    enroll_post cluster_id (candidates (services w)) pre (listed w) n' w0 evs ls ∧
    final_nodes cluster_id w = (Returned n', w0) ∧
    _ensure_nfs_cluster cluster_id w =
      (Returned (negb (n' =? 0)), set_log (log w0 ++ [verdict cluster_id n']) w0).
Proof.
  intros pre Hshort.
  destruct (enroll_run cluster_id (candidates (services w)) pre (listed w) Hshort)
    as (n' & w0 & evs & ls & Hrun & Hpost).
  exists n', w0, evs, ls. split; [done|].
  unfold _ensure_nfs_cluster, final_nodes, bind. rewrite list_services_run.
  fold pre. assert ((3 <=? pre) = false) as -> by (apply Nat.leb_gt; lia).
  change (services (listed w)) with (services w). rewrite Hrun.
  split; [done|]. unfold verdict.
  destruct (n' =? 0); [done|]. destruct (n' <? 3); done.
Qed.

Lemma ensure_short_services cluster_id w :
  let pre := length (nfs_services cluster_id (services w)) in
  pre < 3 →
  services (world_after (_ensure_nfs_cluster cluster_id) w) =
  services (world_after (enroll cluster_id (candidates (services w)) pre)
              (listed w)).
Proof.
  intros pre Hshort.
  destruct (enroll_run cluster_id (candidates (services w)) pre (listed w) Hshort)
    as (n' & w0 & evs & ls & Hrun & _).
  unfold world_after, _ensure_nfs_cluster, bind. rewrite list_services_run.
  fold pre. assert ((3 <=? pre) = false) as -> by (apply Nat.leb_gt; lia).
  change (services (listed w)) with (services w). rewrite Hrun.
  destruct (n' =? 0); [done|]. destruct (n' <? 3); done.
Qed.

Lemma final_nodes_short cluster_id w :
  let pre := length (nfs_services cluster_id (services w)) in
  pre < 3 →
  final_nodes cluster_id w =
    enroll cluster_id (candidates (services w)) pre (listed w).
Proof.
  intros pre Hshort. unfold final_nodes, bind. rewrite list_services_run.
  fold pre. by assert ((3 <=? pre) = false) as -> by (apply Nat.leb_gt; lia).
Qed.

Lemma nfs_services_snoc cluster_id svcs host :
  nfs_services cluster_id (svcs ++ [Svc "nfs" host (Some cluster_id)]) =
  nfs_services cluster_id svcs ++ [Svc "nfs" host (Some cluster_id)].
Proof.
  unfold nfs_services, all_nfs_services.
  rewrite filter_app, (filter_cons_True _ _ []), filter_nil by done.
  by rewrite filter_app, (filter_cons_True _ _ []), filter_nil.
Qed.

(** Under an Enable that does what the spec says, the running count of the
    loop is the number of instances of the group in the inventory. *)
Lemma enroll_member_count cluster_id cands n w n' w' :
  enable_as_spec →
  length (nfs_services cluster_id (services w)) = n →
  enroll cluster_id cands n w = (Returned n', w') →
  length (nfs_services cluster_id (services w')) = n'.
Proof.
  intros Hspec. revert n w. induction cands as [|c rest IH]; intros n w Hn Hrun.
  - by injection Hrun as <- <-.
  - rewrite enroll_cons in Hrun. cbv zeta in Hrun.
    destruct (pass_on cluster_id c w) as [ex| |addr ex|addr inv] eqn:Hp.
    { exact (IH n (pass_world cluster_id c (LookupRaised ex) w) Hn Hrun). }
    { exact (IH n (pass_world cluster_id c Unresolved w) Hn Hrun). }
    { exact (IH n (pass_world cluster_id c (EnableRaised addr ex) w) Hn Hrun). }
    pose proof (Hspec _ _ _ _ _ (pass_on_enrolled _ _ _ _ _ Hp)) as Hinv.
    assert (Hn1 : length (nfs_services cluster_id
                    (services (pass_world cluster_id c (Enrolled addr inv) w)))
                  = n + 1).
    { cbn [pass_world services set_log set_trace set_services].
      unfold nfs_services, all_nfs_services. rewrite Hinv.
      fold (all_nfs_services (services w ++ [Svc "nfs" c (Some cluster_id)])).
      fold (nfs_services cluster_id (services w ++ [Svc "nfs" c (Some cluster_id)])).
      rewrite nfs_services_snoc, length_app. cbn. lia. }
    destruct (n + 1 =? 3).
    + by injection Hrun as <- <-.
    + by apply (IH (n + 1) _ Hn1 Hrun).
Qed.

(** *** Teardown *)

(** The loop of [_remove_nfs_cluster] either disables every instance of the
    list, or stops at the first instance whose Disable raises, logs it and
    raises again. *)
Lemma disable_all_run cluster_id l w :
  (∃ w', disable_all cluster_id l w = (Returned tt, w') ∧
         grows w w' (disabled cluster_id <$> l) [] ∧ same_model w w') ∨
  (∃ ex w' before s rest,
     l = before ++ s :: rest ∧
     disable_all cluster_id l w = (Raised ex, w') ∧
     grows w w' ((disabled cluster_id <$> before) ++
                 [DisableNfs (location s) cluster_id false])
           [error_disable cluster_id (location s) ex] ∧
     same_model w w').
Proof.
  revert w. induction l as [|s l IH]; intros w.
  - left. exists w. split_and!; [done|apply grows_refl|apply same_model_refl].
  - cbn [disable_all]. unfold bind, try_except, call_disable_nfs, logger, raise.
    destruct (disable_nfs w (location s) cluster_id) as [inv|ex] eqn:E.
    + set (w1 := set_trace _ _).
      assert (Hg1 : grows w w1 [disabled cluster_id s] []).
      { split; cbn; [done|]. by rewrite app_nil_r. }
      assert (Hm1 : same_model w w1) by done.
      destruct (IH w1) as [(w' & Hrun & Hg & Hm)|(ex & w' & before & s' & rest & -> & Hrun & Hg & Hm)].
      * left. exists w'. split_and!; [done| |exact (same_model_trans _ _ _ Hm1 Hm)].
        exact (grows_trans _ _ _ _ _ _ _ Hg1 Hg).
      * right. exists ex, w', (s :: before), s', rest. split_and!; [done|done| |].
        -- exact (grows_trans _ _ _ _ _ _ _ Hg1 Hg).
        -- exact (same_model_trans _ _ _ Hm1 Hm).
    + right. eexists ex, _, [], s, l. split_and!; [done|reflexivity| |done].
      split; done.
Qed.

Lemma remove_nfs_cluster_unfold cluster_id w :
  _remove_nfs_cluster cluster_id w =
    disable_all cluster_id (departing_services cluster_id (services w)) (listed w).
Proof. done. Qed.

Lemma remove_run cluster_id w :
  let targets := departing_services cluster_id (services w) in
  (∃ w', _remove_nfs_cluster cluster_id w = (Returned tt, w') ∧
         grows w w' (ListServices :: (disabled cluster_id <$> targets)) [] ∧
         same_model w w') ∨
  (∃ ex w' before s rest,
     targets = before ++ s :: rest ∧
     _remove_nfs_cluster cluster_id w = (Raised ex, w') ∧
     grows w w' (ListServices :: (disabled cluster_id <$> before) ++
                 [DisableNfs (location s) cluster_id false])
           [error_disable cluster_id (location s) ex] ∧
     same_model w w').
Proof.
  intros targets. rewrite remove_nfs_cluster_unfold. fold targets.
  assert (Hg0 : grows w (listed w) [ListServices] []).
  { split; cbn; [done|by rewrite app_nil_r]. }
  destruct (disable_all_run cluster_id targets (listed w))
    as [(w' & Hrun & Hg & Hm)|(ex & w' & before & s & rest & Ht & Hrun & Hg & Hm)].
  - left. exists w'. split_and!; [done| |done].
    exact (grows_trans _ _ _ _ _ _ _ Hg0 Hg).
  - right. exists ex, w', before, s, rest. split_and!; [done|done| |done].
    exact (grows_trans _ _ _ _ _ _ _ Hg0 Hg).
Qed.

Lemma disable_all_cons cluster_id s l w :
  disable_all cluster_id (s :: l) w =
    match disable_nfs w (location s) cluster_id with
    | Done inv =>
        disable_all cluster_id l
          (set_trace (trace w ++ [DisableNfs (location s) cluster_id true])
             (set_services inv w))
    | Fails ex =>
        (Raised ex,
         set_log (log w ++ [error_disable cluster_id (location s) ex])
           (set_trace (trace w ++ [DisableNfs (location s) cluster_id false]) w))
    end.
Proof.
  cbn [disable_all]. unfold bind, try_except, call_disable_nfs, logger, raise.
  by destruct (disable_nfs w (location s) cluster_id).
Qed.


(** The candidates of an inventory under a proper set iteration. *)
Lemma elem_of_candidates svcs h :
  set_iter_ok →
  h ∈ candidates svcs ↔
    (∃ s, s ∈ svcs ∧ location s = h) ∧
    ¬ (∃ s, s ∈ svcs ∧ service s = "nfs" ∧ location s = h).
Proof.
  intros Hset. unfold candidates, all_hosts, exclude_hosts, all_nfs_services.
  rewrite list_elem_of_filter. destruct (Hset (location <$> svcs)) as [_ ->].
  rewrite !list_elem_of_fmap. split.
  - intros [Hnot (s & -> & Hs)]. split; [by exists s|].
    intros (s' & Hs' & Hnfs & Hloc). apply Hnot.
    exists s'. split; [done|]. by apply list_elem_of_filter.
  - intros [(s & Hs & <-) Hnot]. split; [|by exists s].
    intros (s' & Hloc & Hs'). apply list_elem_of_filter in Hs' as [Hnfs Hs'].
    apply Hnot. by exists s'.
Qed.


(** *** [_service_relation] *)

Lemma service_relation_run relation w :
  ∃ ensured w1,
    _ensure_nfs_cluster (_cluster_id relation) w = (Returned ensured, w1) ∧
    ∃ w' evs,
      _service_relation relation w = (Returned ensured, w') ∧
      trace w' = trace w1 ++ evs ∧ same_cluster w1 w' ∧
      (∀ i, i ≠ rel_id relation → relation_data w' !! i = relation_data w1 !! i) ∧
      if ensured then
        ∃ fsid mon_hosts keyring calls,
          evs = calls ++ [RelationUpdate (rel_id relation)
                            (published relation fsid mon_hosts keyring)] ∧
          Forall (λ e, is_storage_call e = true) calls ∧
          relation_data w' !! rel_id relation =
            Some (dict_update (published relation fsid mon_hosts keyring)
                    (default ∅ (relation_data w1 !! rel_id relation)))
      else
        evs = [RelationClear (rel_id relation)] ∧
        relation_data w' !! rel_id relation = Some ∅.
Proof.
  assert (Hens : ∃ ensured w1,
            _ensure_nfs_cluster (_cluster_id relation) w = (Returned ensured, w1)).
  { destruct (le_lt_dec 3 (length (nfs_services (_cluster_id relation) (services w))))
      as [Hfull|Hshort].
    - destruct (ensure_full _ w Hfull) as [-> _]. eauto.
    - destruct (ensure_short _ w Hshort) as (n' & w0 & evs & ls & _ & _ & ->). eauto. }
  destruct Hens as (ensured & w1 & Hens). exists ensured, w1. split; [done|].
  unfold _service_relation. unfold bind at 1. rewrite Hens.
  destruct ensured; cbn [negb].
  - unfold bind, _ensure_fs_volume, bind, emit, get, ret, relation_data_update.
    cbn. destruct (bool_decide _); cbn.
    + eexists _, _. split; [reflexivity|]. cbn.
      split_and!; [apply app_assoc3|done| |].
      * intros i Hi. by rewrite lookup_insert_ne.
      * eexists _, _, _, [ListFsVolumes; GetNamedKey _ _].
        split_and!; [reflexivity|by repeat constructor|].
        rewrite lookup_insert_eq. reflexivity.
    + eexists _, _. split; [reflexivity|]. cbn.
      split_and!; [apply app_assoc4|done| |].
      * intros i Hi. by rewrite lookup_insert_ne.
      * eexists _, _, _, [ListFsVolumes; CreateFsVolume _; GetNamedKey _ _].
        split_and!; [reflexivity|by repeat constructor|].
        rewrite lookup_insert_eq. reflexivity.
  - unfold bind, relation_data_clear, ret. cbn.
    eexists _, _. split; [reflexivity|]. cbn.
    split_and!; [reflexivity|done| | |].
    + intros i Hi. by rewrite lookup_insert_ne.
    + done.
    + by rewrite lookup_insert_eq.
Qed.

Lemma dict_update_published relation fsid mon_hosts keyring old k v :
  (k, v) ∈ published relation fsid mon_hosts keyring →
  dict_update (published relation fsid mon_hosts keyring) old !! k = Some v.
Proof.
  unfold published, dict_update. cbn. intros Hin.
  repeat (apply elem_of_cons in Hin as [[= -> ->]|Hin]; [by simplify_map_eq|]).
  by apply elem_of_nil in Hin.
Qed.

(** A successful [_service_relation]: the record it writes holds what the
    collaborators answer after the key request. *)
Lemma service_relation_success relation w w1 :
  _ensure_nfs_cluster (_cluster_id relation) w = (Returned true, w1) →
  let w_k := publishing relation w in
  let fields :=
    published relation (get_fsid w_k) (json_dumps (get_mon_addresses w_k))
      (get_named_key w_k ("client." +:+ app_name relation) caps) in
  _service_relation relation w =
    (Returned true,
     set_trace (trace w_k ++ [RelationUpdate (rel_id relation) fields])
       (set_relation_data
          (<[rel_id relation :=
               dict_update fields (default ∅ (relation_data w_k !! rel_id relation))]>
             (relation_data w_k)) w_k)) ∧
  ∃ calls, trace w_k = trace w1 ++ calls ∧
           GetNamedKey ("client." +:+ app_name relation) caps ∈ calls.
Proof.
  intros Hens w_k fields.
  assert (Hk : w_k =
            snd ((_ensure_fs_volume (_cluster_id relation +:+ "-vol") >>
                  emit (GetNamedKey ("client." +:+ app_name relation) caps)) w1)).
  { subst w_k. unfold publishing, world_after. unfold bind at 1. by rewrite Hens. }
  subst fields. clearbody w_k. subst w_k.
  unfold _service_relation. unfold bind at 1. rewrite Hens. cbn [negb].
  unfold bind, _ensure_fs_volume, bind, emit, get, ret, relation_data_update.
  cbn. destruct (bool_decide _); cbn.
  - split; [reflexivity|]. eexists [_; _]. split; [by rewrite <- app_assoc|].
    apply elem_of_cons. right. apply list_elem_of_here.
  - split; [reflexivity|]. eexists [_; _; _]. split; [by rewrite <- !app_assoc|].
    do 2 (apply elem_of_cons; right). apply list_elem_of_here.
Qed.

(** *** Counting the writes of a trace *)

Lemma writes_on_app rel e1 e2 :
  writes_on rel (e1 ++ e2) = writes_on rel e1 + writes_on rel e2.
Proof. unfold writes_on. by rewrite filter_app, length_app. Qed.

Lemma writes_on_none rel evs :
  Forall (λ e, is_write_on rel e = false) evs → writes_on rel evs = 0.
Proof.
  unfold writes_on. induction 1 as [|e evs He _ IH]; [done|].
  rewrite filter_cons. destruct (decide _) as [Hw|_]; [congruence|done].
Qed.

Lemma writes_on_singleton rel e :
  writes_on rel [e] = if is_write_on rel e then 1 else 0.
Proof.
  unfold writes_on. rewrite filter_cons, filter_nil.
  destruct (is_write_on rel e); [by rewrite decide_True|by rewrite decide_False].
Qed.

Lemma enable_is_no_write rel cluster_id evs :
  Forall (λ e, ∃ h a ok, e = EnableNfs h cluster_id a ok) evs →
  Forall (λ e, is_write_on rel e = false) evs.
Proof. intros HF. eapply Forall_impl; [exact HF|]. by intros e (h & a & ok & ->). Qed.

Lemma storage_call_is_no_write rel evs :
  Forall (λ e, is_storage_call e = true) evs →
  Forall (λ e, is_write_on rel e = false) evs.
Proof. intros HF. eapply Forall_impl; [exact HF|]. by intros []. Qed.

(** *** [_ensure_nfs_cluster], whatever the size of the group *)

Lemma ensure_run cluster_id w :
  ∃ ensured w1 evs ls,
    _ensure_nfs_cluster cluster_id w = (Returned ensured, w1) ∧
    grows w w1 (ListServices :: evs) ls ∧ same_model w w1 ∧
    Forall (λ e, ∃ h a ok, e = EnableNfs h cluster_id a ok) evs.
Proof.
  destruct (le_lt_dec 3 (length (nfs_services cluster_id (services w))))
    as [Hfull|Hshort].
  - destruct (ensure_full _ w Hfull) as [-> _].
    eexists true, _, [], [info_full cluster_id]. split_and!; done.
  - destruct (ensure_short _ w Hshort)
      as (n' & w0 & evs & ls & Hpost & _ & ->).
    destruct Hpost as ([Ht Hl] & Hm & Hall & _).
    eexists _, _, evs, (ls ++ [verdict cluster_id n']).
    split_and!; [done| |done|done].
    split; cbn.
    + rewrite Ht. cbn. by rewrite <- app_assoc.
    + rewrite Hl. cbn. by rewrite <- app_assoc.
Qed.

(** One call of [_service_relation] returns, and writes the published data of
    its relation exactly once and of no other relation. *)
Lemma service_relation_events relation w :
  ∃ ensured w' evs,
    _service_relation relation w = (Returned ensured, w') ∧
    trace w' = trace w ++ evs ∧
    is_leader w' = is_leader w ∧ relations w' = relations w ∧
    ∀ rel, writes_on rel evs = if decide (rel = rel_id relation) then 1 else 0.
Proof.
  destruct (service_relation_run relation w)
    as (ensured & w1 & Hens & w' & evs & Hrun & Ht & Hsame & _ & Hcase).
  destruct (ensure_run (_cluster_id relation) w)
    as (ensured' & w1' & evs1 & ls1 & Hens' & [Ht1 _] & Hm1 & Hall).
  rewrite Hens in Hens'. injection Hens' as <- <-.
  exists ensured, w', ((ListServices :: evs1) ++ evs).
  destruct Hsame as (Hl & _ & _ & Hr & _), Hm1 as (Hl1 & _ & _ & Hr1 & _).
  split_and!; [done|by rewrite Ht, Ht1, app_assoc|congruence|congruence|].
  intros rel. rewrite writes_on_app.
  rewrite (writes_on_none rel (ListServices :: evs1))
    by (constructor; [done|by eapply enable_is_no_write]).
  destruct ensured.
  - destruct Hcase as (fsid & mon & key & calls & -> & Hcalls & _).
    rewrite writes_on_app, (writes_on_none rel calls)
      by by apply storage_call_is_no_write.
    rewrite writes_on_singleton. cbn [is_write_on].
    destruct (decide (rel = rel_id relation)) as [->|Hne].
    + by rewrite bool_decide_eq_true_2.
    + by rewrite bool_decide_eq_false_2.
  - destruct Hcase as [-> _].
    rewrite writes_on_singleton. cbn [is_write_on].
    destruct (decide (rel = rel_id relation)) as [->|Hne].
    + by rewrite bool_decide_eq_true_2.
    + by rewrite bool_decide_eq_false_2.
Qed.

(** *** The rebalance loop and the depart handler *)

Lemma service_each_run rels w :
  ∃ w' evs,
    service_each rels w = (Returned tt, w') ∧
    trace w' = trace w ++ evs ∧
    is_leader w' = is_leader w ∧ relations w' = relations w ∧
    ∀ rel, writes_on rel evs = length (filter (λ r, rel_id r = rel) rels).
Proof.
  revert w. induction rels as [|r rels IH]; intros w.
  - exists w, []. split_and!; [done|by rewrite app_nil_r|done|done|done].
  - destruct (service_relation_events r w)
      as (ensured & w1 & evs1 & Hrun & Ht1 & Hl1 & Hr1 & Hw1).
    destruct (IH w1) as (w' & evs & Hrest & Ht & Hl & Hr & Hw).
    exists w', (evs1 ++ evs). cbn [service_each]. unfold bind. rewrite Hrun, Hrest.
    split_and!; [done|by rewrite Ht, Ht1, app_assoc|congruence|congruence|].
    intros rel. rewrite writes_on_app, Hw1, Hw, filter_cons.
    destruct (decide (rel = rel_id r)) as [->|Hne].
    + by rewrite decide_True.
    + by rewrite decide_False.
Qed.

Lemma remove_nfs_cluster_same_model cluster_id w :
  same_model w (world_after (_remove_nfs_cluster cluster_id) w).
Proof.
  unfold world_after. rewrite remove_nfs_cluster_unfold.
  destruct (disable_all_run cluster_id
              (departing_services cluster_id (services w)) (listed w))
    as [(w' & -> & _ & Hm)|(ex & w' & b & s & r & _ & -> & _ & Hm)];
    exact (same_model_trans w (listed w) w' (same_model_refl _) Hm).
Qed.

Lemma departed_run event_relation w :
  is_leader w = true →
  match _remove_nfs_cluster (_cluster_id event_relation) (departing w) with
  | (Raised ex, w1) => _on_ceph_nfs_departed event_relation w = (Raised ex, w1)
  | (Returned _, w1) =>
      ∃ w' evs,
        _on_ceph_nfs_departed event_relation w = (Returned tt, w') ∧
        trace w' = trace w1 ++
                   RemoveNamedKey ("client." +:+ app_name event_relation) :: evs ∧
        ∀ rel, writes_on rel evs =
               length (filter (λ r, rel_id r = rel)
                         (other_relations event_relation (relations w)))
  end.
Proof.
  intros Hleader.
  pose proof (remove_nfs_cluster_same_model (_cluster_id event_relation)
                (departing w)) as Hm.
  unfold world_after in Hm.
  unfold _on_ceph_nfs_departed, bind, get, logger. rewrite Hleader. cbn [negb].
  fold (departing w).
  destruct (_remove_nfs_cluster (_cluster_id event_relation) (departing w))
    as [[[]|ex] w1]; [|done].
  cbn in Hm. destruct Hm as (_ & _ & _ & Hrel & _).
  unfold emit. cbn.
  set (w2 := set_trace _ w1).
  destruct (service_each_run (other_relations event_relation (relations w1)) w2)
    as (w' & evs & Hrun & Ht & _ & _ & Hw).
  exists w', evs. split_and!; [exact Hrun| |].
  - rewrite Ht. cbn. by rewrite <- app_assoc.
  - intros rel. rewrite Hw. by rewrite Hrel.
Qed.

End Theory.

(** ** The claims *)

Section Claims.
Context `{Collaborators}.

(** C9. Leadership gating: on a unit that is not the leader the connect
    handler (and the reconcile handler, which is the same code) and the
    depart handler return at once and leave the world as it was: nothing is
    added to the trace (no inventory query, no actuator call, no deferral)
    and the published relation data is unchanged. *)
Theorem leadership_gating event_relation w :
  is_leader w = false →
  _on_ceph_nfs_connected event_relation w = (Returned tt, w) ∧
  _on_ceph_nfs_reconcile event_relation w = (Returned tt, w) ∧
  _on_ceph_nfs_departed event_relation w = (Returned tt, w) ∧
  new_events (_on_ceph_nfs_connected event_relation) w = [] ∧
  new_events (_on_ceph_nfs_departed event_relation) w = [] ∧
  relation_data (world_after (_on_ceph_nfs_connected event_relation) w)
    = relation_data w ∧
  relation_data (world_after (_on_ceph_nfs_departed event_relation) w)
    = relation_data w.
Proof.
  intros Hfollower.
  assert (Hc : _on_ceph_nfs_connected event_relation w = (Returned tt, w)).
  { unfold _on_ceph_nfs_connected, bind, get. by rewrite Hfollower. }
  assert (Hd : _on_ceph_nfs_departed event_relation w = (Returned tt, w)).
  { unfold _on_ceph_nfs_departed, bind, get. by rewrite Hfollower. }
  unfold _on_ceph_nfs_reconcile, new_events, world_after. rewrite Hc, Hd. cbn.
  by rewrite drop_all.
Qed.

(** C5. A group that already has three members or more is left alone:
    [_ensure_nfs_cluster] queries the inventory, makes no Enable (or any
    other) call, returns [True] and leaves the inventory as it was; however
    often it is called again, the outcome is the same. *)
Theorem full_group_is_left_alone cluster_id w (k : nat) :
  3 ≤ length (nfs_services cluster_id (services w)) →
  let wk := Nat.iter k (world_after (_ensure_nfs_cluster cluster_id)) w in
  result_of (_ensure_nfs_cluster cluster_id) wk = Returned true ∧
  new_events (_ensure_nfs_cluster cluster_id) wk = [ListServices] ∧
  enable_hosts (new_events (_ensure_nfs_cluster cluster_id) wk) = [] ∧
  services (world_after (_ensure_nfs_cluster cluster_id) wk) = services w.
Proof.
  intros Hfull wk.
  assert (Hk : services wk = services w).
  { subst wk. induction k as [|k IH]; [done|]. rewrite Nat.iter_succ.
    etrans; [apply ensure_full_services; by rewrite IH|exact IH]. }
  destruct (ensure_full cluster_id wk) as [Hrun _]; [by rewrite Hk|].
  unfold result_of, new_events, world_after. rewrite Hrun. cbn.
  rewrite drop_app_length. by rewrite <- Hk.
Qed.

(** C6. Capacity bound: from a group with at most three members the
    reconciliation ends with at most three; the Enable calls that return
    number at most [3 - pre] and account for the whole growth of the count;
    once the running count has reached three, no further Enable call is
    made; and under an Enable that does what the spec says, that count is
    the number of instances of the group in the inventory afterwards. *)
Theorem capacity_bound cluster_id w :
  let pre := length (nfs_services cluster_id (services w)) in
  let evs := new_events (_ensure_nfs_cluster cluster_id) w in
  pre ≤ 3 →
  ∃ n', result_of (final_nodes cluster_id) w = Returned n' ∧
        n' ≤ 3 ∧
        n' = pre + length (enabled_hosts evs) ∧
        length (enabled_hosts evs) ≤ 3 - pre ∧
        (∀ before after,
           evs = before ++ after →
           pre + length (enabled_hosts before) = 3 →
           enable_hosts after = []) ∧
        (enable_as_spec →
         length (nfs_services cluster_id
                   (services (world_after (_ensure_nfs_cluster cluster_id) w)))
         = n').
Proof.
  intros pre evs Hpre.
  destruct (le_lt_dec 3 pre) as [Hfull|Hshort].
  - destruct (ensure_full cluster_id w Hfull) as [Hrun Hfin].
    assert (Hevs : evs = [ListServices]).
    { subst evs. unfold new_events, world_after. rewrite Hrun. cbn.
      by rewrite drop_app_length. }
    exists pre. unfold result_of. rewrite Hfin, Hevs. cbn.
    split_and!; [done|done|lia|lia| |].
    + intros before after Heq _.
      destruct before as [|e [|]]; destruct after as [|e' [|]];
        simplify_eq/=; done.
    + intros _. by rewrite ensure_full_services.
  - destruct (ensure_short cluster_id w Hshort)
      as (n' & w0 & evs0 & ls & Hpost & Hfin & Hrun).
    destruct Hpost as ([Ht _] & _ & Hall & _ & Hcnt & Hle & Hlast & _).
    assert (Hevs : evs = ListServices :: evs0).
    { subst evs. unfold new_events, world_after. rewrite Hrun. cbn.
      rewrite Ht. cbn. rewrite <- app_assoc. by rewrite drop_app_length. }
    exists n'. unfold result_of. rewrite Hfin, Hevs. cbn [fst].
    change (enabled_hosts (ListServices :: evs0)) with (enabled_hosts evs0).
    fold pre in Hcnt.
    split_and!; [done|done|done|lia| |].
    2:{ intros Hspec. rewrite ensure_short_services by done.
        rewrite final_nodes_short in Hfin by done.
        subst pre. cbv zeta in Hfin. unfold world_after. rewrite Hfin. cbn [snd].
        exact (enroll_member_count cluster_id (candidates (services w))
                 (length (nfs_services cluster_id (services w))) (listed w) n' w0
                 Hspec eq_refl Hfin). }
    intros before after Heq Hthree.
    assert (Hsplit : length (enabled_hosts evs0) =
                     length (enabled_hosts before) + length (enabled_hosts after)).
    { change (enabled_hosts evs0) with (enabled_hosts (ListServices :: evs0)).
      rewrite Heq. unfold enabled_hosts. by rewrite omap_app, length_app. }
    destruct (Hlast ltac:(lia)) as (evs1 & h & a & Hend).
    destruct (decide (after = [])) as [->|Hne]; [done|].
    exfalso.
    destruct (exists_last Hne) as (after' & e & ->).
    assert (e = EnableNfs h cluster_id a true) as ->.
    { rewrite Hend in Heq.
      change (ListServices :: evs1 ++ [EnableNfs h cluster_id a true])
        with ((ListServices :: evs1) ++ [EnableNfs h cluster_id a true]) in Heq.
      rewrite app_assoc in Heq. by apply app_inj_tail in Heq as [_ ->]. }
    unfold enabled_hosts in Hsplit at 3. rewrite omap_app, length_app in Hsplit.
    cbn in Hsplit. lia.
Qed.

(** C10. Reconciliation never removes a member: whatever the inventory,
    [_ensure_nfs_cluster] returns, and besides the inventory query it makes
    only Enable calls for its cluster, never a Disable call; the inventory
    changes only through an Enable that returned, so under an Enable that
    only adds instances every instance present before is present after; and
    a group observed with more than three members gets [True] with no
    actuator call at all, the excess left in place. *)
Theorem reconcile_never_removes cluster_id w :
  let evs := new_events (_ensure_nfs_cluster cluster_id) w in
  let w' := world_after (_ensure_nfs_cluster cluster_id) w in
  (∃ ensured, result_of (_ensure_nfs_cluster cluster_id) w = Returned ensured) ∧
  Forall (λ e, e = ListServices ∨ ∃ h a ok, e = EnableNfs h cluster_id a ok) evs ∧
  Forall (λ e, is_disable e = false) evs ∧
  (enabled_hosts evs = [] → services w' = services w) ∧
  (enable_only_adds → services w ⊆ services w') ∧
  (3 < length (nfs_services cluster_id (services w)) →
   result_of (_ensure_nfs_cluster cluster_id) w = Returned true ∧
   evs = [ListServices] ∧ services w' = services w).
Proof.
  intros evs w'.
  destruct (le_lt_dec 3 (length (nfs_services cluster_id (services w))))
    as [Hfull|Hshort].
  - destruct (ensure_full cluster_id w Hfull) as [Hrun _].
    assert (Hevs : evs = [ListServices]).
    { subst evs. unfold new_events, world_after. rewrite Hrun. cbn.
      by rewrite drop_app_length. }
    assert (Hsv : services w' = services w).
    { subst w'. unfold world_after. by rewrite Hrun. }
    unfold result_of. rewrite Hrun, Hevs, Hsv. cbn [fst].
    split_and!; [by eexists|repeat constructor; by left|by repeat constructor
                |done|done|done].
  - pose proof (ensure_short_services cluster_id w Hshort) as Hsv.
    destruct (ensure_short cluster_id w Hshort)
      as (n' & w0 & evs0 & ls & Hpost & Hfin & Hrun).
    destruct Hpost as ([Ht _] & _ & Hall & _ & _ & _ & _ & Hinv).
    assert (Hevs : evs = ListServices :: evs0).
    { subst evs. unfold new_events, world_after. rewrite Hrun. cbn.
      rewrite Ht. cbn. rewrite <- app_assoc. by rewrite drop_app_length. }
    assert (Hw' : services w' = services w0).
    { subst w'. unfold world_after. by rewrite Hrun. }
    unfold result_of. rewrite Hrun, Hevs. cbn [fst].
    split_and!.
    + by eexists.
    + constructor; [by left|]. eapply Forall_impl; [exact Hall|]. by right.
    + constructor; [done|]. eapply Forall_impl; [exact Hall|].
      by intros e (h & a & ok & ->).
    + intros Hnone. rewrite Hw'. by apply Hinv.
    + intros Hadd. fold w' in Hsv. rewrite Hsv.
      apply (enroll_keeps_services cluster_id _ _ (listed w) Hadd).
    + lia.
Qed.

(** C4. Enrollment is best-effort per host: when the Enable call on a
    candidate [H] raises, the loop goes on with the candidates after it.  The
    loop visits a prefix of the candidate list that contains [H], and leaves
    candidates unvisited only when the count has reached three.  Enable is
    called on exactly the visited candidates for which the peers relation
    gives an address, in candidate order and with that address; a visited
    candidate without an address gets the warning instead.  The final count
    is the pre-existing count plus the Enable calls that returned on
    candidates other than [H]. *)
Theorem enrollment_is_best_effort cluster_id w H_host addr :
  let pre := length (nfs_services cluster_id (services w)) in
  let evs := new_events (_ensure_nfs_cluster cluster_id) w in
  let ls := new_log (_ensure_nfs_cluster cluster_id) w in
  set_iter_ok →
  EnableNfs H_host cluster_id addr false ∈ evs →
  ∃ n' visited unvisited,
    result_of (final_nodes cluster_id) w = Returned n' ∧
    candidates (services w) = visited ++ unvisited ∧
    H_host ∈ visited ∧
    enable_hosts evs = filter (λ c, addressable w c = true) visited ∧
    Forall (λ c, visited_as w cluster_id c evs ls) visited ∧
    (unvisited ≠ [] → n' = 3) ∧
    n' = pre + length (filter (λ h, h ≠ H_host) (enabled_hosts evs)).
Proof.
  intros pre evs ls Hset Hfail.
  destruct (le_lt_dec 3 pre) as [Hfull|Hshort].
  - destruct (ensure_full cluster_id w Hfull) as [Hrun _].
    assert (Hevs : evs = [ListServices]).
    { subst evs. unfold new_events, world_after. rewrite Hrun. cbn.
      by rewrite drop_app_length. }
    rewrite Hevs in Hfail. apply list_elem_of_singleton in Hfail. done.
  - destruct (ensure_short cluster_id w Hshort)
      as (n' & w0 & evs0 & ls0 & Hpost & Hfin & Hrun).
    destruct Hpost as (Hg & _ & Hall & Hsub & Hcnt & _).
    pose proof Hg as [Ht Hl].
    destruct (enroll_visits cluster_id (candidates (services w)) pre (listed w))
      as (n2 & w2 & evs2 & ls2 & visited & unvisited & Hrun2 & Hg2 & Hsplit
          & Hhosts & Hstop & Hvis).
    pose proof Hfin as Hfin'. rewrite final_nodes_short in Hfin' by done.
    fold pre in Hfin'. rewrite Hfin' in Hrun2. injection Hrun2 as <- <-.
    destruct (grows_inj _ _ _ _ _ _ Hg Hg2) as [<- <-].
    assert (Hevs : evs = ListServices :: evs0).
    { subst evs. unfold new_events, world_after. rewrite Hrun. cbn.
      rewrite Ht. cbn. rewrite <- app_assoc. by rewrite drop_app_length. }
    assert (Hls : ls = ls0 ++ [verdict cluster_id n']).
    { subst ls. unfold new_log, world_after. rewrite Hrun. cbn.
      rewrite Hl. cbn. rewrite <- app_assoc. by rewrite drop_app_length. }
    rewrite Hevs in Hfail. apply elem_of_cons in Hfail as [?|Hfail]; [done|].
    assert (Hnd : NoDup (enable_hosts evs0)).
    { eapply sublist_NoDup; [|exact Hsub]. by apply candidates_NoDup. }
    assert (Hnot : Forall (λ h, h ≠ H_host) (enabled_hosts evs0)).
    { apply Forall_forall. intros h Hh ->.
      apply list_elem_of_omap in Hh as (e & He & Hfe).
      destruct e as [|h' c' a' [|]| | | | | | | |]; try done.
      injection Hfe as ->.
      assert (EnableNfs H_host c' a' true = EnableNfs H_host cluster_id addr false)
        as Heq; [|done].
      by eapply (omap_NoDup_inj _ evs0 _ _ H_host Hnd). }
    rewrite (list_filter_iff (λ c, addressable (listed w) c = true)
               (λ c, addressable w c = true)) in Hhosts
      by (intros x; by rewrite (addressable_same_peers x w (listed w) eq_refl)).
    exists n', visited, unvisited. unfold result_of. rewrite Hfin. cbn [fst].
    rewrite Hevs.
    change (enable_hosts (ListServices :: evs0)) with (enable_hosts evs0).
    change (enabled_hosts (ListServices :: evs0)) with (enabled_hosts evs0).
    split_and!; [done|done| |exact Hhosts| |done|].
    + assert (Hin : H_host ∈ enable_hosts evs0).
      { apply list_elem_of_omap.
        by eexists (EnableNfs H_host cluster_id addr false). }
      rewrite Hhosts in Hin. by apply list_elem_of_filter in Hin as [_ ?].
    + eapply Forall_impl; [exact Hvis|]. intros c.
      apply (visited_as_mono w (listed w)); [done| |].
      * intros e He. by apply elem_of_cons; right.
      * rewrite Hls. intros r Hr. apply elem_of_app. by left.
    + rewrite (filter_all _ _ Hnot). exact Hcnt.
Qed.

(** C7. Published-state atomicity: [_service_relation] returns; when the
    reconciliation ends with zero members it returns [False], its one write
    to the relation is the clear and the published data of the relation is
    empty; when it ends with at least one member it returns [True], it
    requests the key of the consumer's client, its one write is the update
    with the six fields fsid, mon-hosts, keyring, volume, client and
    cluster-id, and the published data holds each of them: the fsid that
    [utils.get_fsid] gives, the monitor addresses of
    [utils.get_mon_addresses] as json, the key [ceph.get_named_key] gives
    for the client and its capabilities, and the names of the relation. *)
Theorem published_state_is_all_or_nothing relation w :
  let cluster_id := _cluster_id relation in
  let client_name := "client." +:+ app_name relation in
  let w' := world_after (_service_relation relation) w in
  let evs := new_events (_service_relation relation) w in
  match result_of (final_nodes cluster_id) w with
  | Raised _ => False
  | Returned 0 =>
      result_of (_service_relation relation) w = Returned false ∧
      last evs = Some (RelationClear (rel_id relation)) ∧
      writes_on (rel_id relation) evs = 1 ∧
      relation_data w' !! rel_id relation = Some ∅
  | Returned (S _) =>
      result_of (_service_relation relation) w = Returned true ∧
      let w_k := publishing relation w in
      let fields :=
        [("fsid", get_fsid w_k);
         ("mon-hosts", json_dumps (get_mon_addresses w_k));
         ("keyring", get_named_key w_k client_name caps);
         ("volume", cluster_id +:+ "-vol");
         ("client", client_name);
         ("cluster-id", cluster_id)] in
      GetNamedKey client_name caps ∈ evs ∧
      last evs = Some (RelationUpdate (rel_id relation) fields) ∧
      writes_on (rel_id relation) evs = 1 ∧
      ∃ data, relation_data w' !! rel_id relation = Some data ∧
              ∀ k v, (k, v) ∈ fields → data !! k = Some v
  end.
Proof.
  intros cluster_id client_name w' evs.
  destruct (service_relation_run relation w)
    as (ensured & w1 & Hens & w2 & evs2 & Hrun & Ht2 & _ & _ & Hcase).
  destruct (service_relation_events relation w)
    as (ensured' & w2' & evs' & Hrun' & Ht' & _ & _ & Hwrites).
  rewrite Hrun in Hrun'. injection Hrun' as <- <-.
  destruct (ensure_run cluster_id w)
    as (ensured' & w1' & evs1 & ls1 & Hens' & [Ht1 _] & _ & _).
  fold cluster_id in Hens. rewrite Hens in Hens'. injection Hens' as <- <-.
  assert (Hevs : evs = evs').
  { subst evs. unfold new_events, world_after. rewrite Hrun. cbn [snd].
    rewrite Ht'. by rewrite drop_app_length. }
  assert (Hevs2 : evs = (ListServices :: evs1) ++ evs2).
  { rewrite Hevs. apply (app_inv_head (trace w)). rewrite <- Ht', Ht2, Ht1.
    by rewrite <- app_assoc. }
  assert (Hw' : w' = w2) by (subst w'; unfold world_after; by rewrite Hrun).
  assert (Hone : writes_on (rel_id relation) evs = 1).
  { rewrite Hevs, Hwrites. by rewrite decide_True. }
  assert (Hn : ∃ n', result_of (final_nodes cluster_id) w = Returned n' ∧
                     ensured = negb (n' =? 0)).
  { destruct (le_lt_dec 3 (length (nfs_services cluster_id (services w))))
      as [Hfull|Hshort].
    - destruct (ensure_full cluster_id w Hfull) as [Hf1 Hf2].
      rewrite Hf1 in Hens. injection Hens as <- _.
      eexists. unfold result_of. rewrite Hf2. split; [done|].
      symmetry. apply negb_true_iff, Nat.eqb_neq. lia.
    - destruct (ensure_short cluster_id w Hshort)
        as (n' & w0 & e0 & l0 & _ & Hf2 & Hf1).
      rewrite Hf1 in Hens. injection Hens as <- _.
      exists n'. unfold result_of. by rewrite Hf2. }
  destruct Hn as (n' & -> & ->). unfold result_of. rewrite Hrun. cbn [fst].
  destruct n' as [|n']; cbn [Nat.eqb negb] in *.
  - destruct Hcase as [-> Hdata].
    split_and!; [done| |done|by rewrite Hw'].
    rewrite Hevs2. change [RelationClear (rel_id relation)]
      with ([] ++ [RelationClear (rel_id relation)]).
    by rewrite app_assoc, last_snoc.
  - clear Hcase.
    destruct (service_relation_success relation w w1 Hens)
      as [Hsucc (calls & Hcalls & Hkey)].
    cbv zeta in Hsucc. fold client_name in Hsucc, Hkey.
    rewrite Hrun in Hsucc. injection Hsucc as Hw2.
    split; [done|]. cbv zeta.
    change [("fsid", get_fsid (publishing relation w));
            ("mon-hosts", json_dumps (get_mon_addresses (publishing relation w)));
            ("keyring", get_named_key (publishing relation w) client_name caps);
            ("volume", cluster_id +:+ "-vol");
            ("client", client_name);
            ("cluster-id", cluster_id)]
      with (published relation (get_fsid (publishing relation w))
              (json_dumps (get_mon_addresses (publishing relation w)))
              (get_named_key (publishing relation w) client_name caps)).
    set (fields := published relation _ _ _) in *.
    assert (Hevs3 : evs = (ListServices :: evs1) ++ calls ++
                          [RelationUpdate (rel_id relation) fields]).
    { rewrite Hevs2. f_equal. apply (app_inv_head (trace w1)).
      rewrite <- Ht2, Hw2. cbn. by rewrite Hcalls, <- app_assoc. }
    split_and!.
    + rewrite Hevs3. apply elem_of_app. right. apply elem_of_app. by left.
    + rewrite Hevs3. by rewrite !app_assoc, last_snoc.
    + done.
    + eexists. rewrite Hw', Hw2. cbn. rewrite lookup_insert_eq.
      split; [reflexivity|].
      intros k v Hkv. by apply dict_update_published.
Qed.

(** C1, amended. Teardown is not best-effort: [_remove_nfs_cluster] calls
    Disable on the instances of the group in inventory order and stops at
    the first call that raises, which it logs and raises again; the
    instances after it see no Disable.  When no call raises, every instance
    of the group sees exactly one Disable and nothing is logged. *)
Theorem teardown_stops_at_first_failure cluster_id w :
  let targets := departing_services cluster_id (services w) in
  let evs := new_events (_remove_nfs_cluster cluster_id) w in
  let ls := new_log (_remove_nfs_cluster cluster_id) w in
  match result_of (_remove_nfs_cluster cluster_id) w with
  | Returned _ =>
      evs = ListServices :: (disabled cluster_id <$> targets) ∧ ls = []
  | Raised ex =>
      ∃ before s rest,
        targets = before ++ s :: rest ∧
        evs = ListServices :: (disabled cluster_id <$> before) ++
              [DisableNfs (location s) cluster_id false] ∧
        ls = [error_disable cluster_id (location s) ex]
  end.
Proof.
  intros targets evs ls.
  destruct (remove_run cluster_id w)
    as [(w' & Hrun & Hg & _)|(ex & w' & before & s & rest & Ht & Hrun & Hg & _)].
  - assert (Hw : world_after (_remove_nfs_cluster cluster_id) w = w')
      by (unfold world_after; by rewrite Hrun).
    rewrite <- Hw in Hg. apply grows_new_events in Hg as [He Hl].
    unfold result_of. rewrite Hrun. cbn [fst]. done.
  - assert (Hw : world_after (_remove_nfs_cluster cluster_id) w = w')
      by (unfold world_after; by rewrite Hrun).
    rewrite <- Hw in Hg. apply grows_new_events in Hg as [He Hl].
    unfold result_of. rewrite Hrun. cbn [fst]. by exists before, s, rest.
Qed.

(** C2, amended. On the leader the key of the departing consumer is
    revoked right after the teardown exactly when no Disable call raised.
    When a Disable call raises, the exception leaves the handler: the
    handler raises it, makes no call after the failed Disable and revokes no
    key. *)
Theorem revocation_needs_a_clean_teardown event_relation w :
  let cluster_id := _cluster_id event_relation in
  let revoke := RemoveNamedKey ("client." +:+ app_name event_relation) in
  let evs := new_events (_on_ceph_nfs_departed event_relation) w in
  let torn := new_events (_remove_nfs_cluster cluster_id) (departing w) in
  is_leader w = true →
  match result_of (_remove_nfs_cluster cluster_id) (departing w) with
  | Returned _ =>
      result_of (_on_ceph_nfs_departed event_relation) w = Returned tt ∧
      (∀ host, DisableNfs host cluster_id false ∉ torn) ∧
      ∃ rest, evs = torn ++ revoke :: rest
  | Raised ex =>
      result_of (_on_ceph_nfs_departed event_relation) w = Raised ex ∧
      (∃ host, last torn = Some (DisableNfs host cluster_id false)) ∧
      evs = torn ∧
      ∀ client_name, RemoveNamedKey client_name ∉ evs
  end.
Proof.
  intros cluster_id revoke evs torn Hleader.
  pose proof (departed_run event_relation w Hleader) as Hdep.
  fold cluster_id in Hdep.
  destruct (remove_run cluster_id (departing w))
    as [(w1 & Hrun & Hg & _)|(ex & w1 & before & s & rest & _ & Hrun & Hg & _)].
  - assert (Hw : world_after (_remove_nfs_cluster cluster_id) (departing w) = w1)
      by (unfold world_after; by rewrite Hrun).
    pose proof Hg as [Ht1 _]. rewrite <- Hw in Hg.
    apply grows_new_events in Hg as [He _]. fold torn in He.
    rewrite Hrun in Hdep. destruct Hdep as (w' & rest & Hh & Ht & _).
    unfold result_of. rewrite Hrun, Hh. cbn [fst].
    split_and!; [done| |].
    + intros host Hin. rewrite He in Hin.
      apply elem_of_cons in Hin as [?|Hin]; [done|].
      apply list_elem_of_fmap in Hin as (s & ? & _). done.
    + exists rest. subst evs. unfold new_events, world_after. rewrite Hh. cbn [snd].
      rewrite Ht, Ht1, <- He. change (trace (departing w)) with (trace w).
      by rewrite <- app_assoc, drop_app_length.
  - assert (Hw : world_after (_remove_nfs_cluster cluster_id) (departing w) = w1)
      by (unfold world_after; by rewrite Hrun).
    pose proof Hg as [Ht1 _]. rewrite <- Hw in Hg.
    apply grows_new_events in Hg as [He _]. fold torn in He.
    rewrite Hrun in Hdep.
    assert (Hevs : evs = torn).
    { subst evs. unfold new_events, world_after. rewrite Hdep. cbn [snd].
      rewrite Ht1, <- He. change (trace (departing w)) with (trace w).
      by rewrite drop_app_length. }
    unfold result_of. rewrite Hrun, Hdep. cbn [fst].
    split_and!; [done| |done|].
    + exists (location s). rewrite He.
      change (ListServices :: (disabled cluster_id <$> before) ++
              [DisableNfs (location s) cluster_id false])
        with ((ListServices :: (disabled cluster_id <$> before)) ++
              [DisableNfs (location s) cluster_id false]).
      by rewrite last_snoc.
    + intros client_name Hin. rewrite Hevs, He in Hin.
      apply elem_of_cons in Hin as [?|Hin]; [done|].
      apply elem_of_app in Hin as [Hin|Hin].
      * apply list_elem_of_fmap in Hin as (s' & ? & _). done.
      * apply list_elem_of_singleton in Hin. done.
Qed.


(** C3, amended. The candidates of a reconciliation are the distinct
    locations of the service inventory (of any kind of service) that run no
    nfs instance of any group, each once; a host that runs some listed
    service and no nfs is a candidate, a host that appears in no inventory
    entry is not.  Every Enable call of [_ensure_nfs_cluster] is on such a
    candidate. *)
Theorem candidates_come_from_the_inventory cluster_id w h :
  set_iter_ok →
  NoDup (candidates (services w)) ∧
  (h ∈ candidates (services w) ↔
     (∃ s, s ∈ services w ∧ location s = h) ∧
     ¬ (∃ s, s ∈ services w ∧ service s = "nfs" ∧ location s = h)) ∧
  enable_hosts (new_events (_ensure_nfs_cluster cluster_id) w)
    ⊆ candidates (services w).
Proof.
  intros Hset. split_and!.
  - by apply candidates_NoDup.
  - by apply elem_of_candidates.
  - destruct (le_lt_dec 3 (length (nfs_services cluster_id (services w))))
      as [Hfull|Hshort].
    + destruct (ensure_full cluster_id w Hfull) as [Hrun _].
      unfold new_events, world_after. rewrite Hrun. cbn.
      rewrite drop_app_length. cbn. apply list_subseteq_nil.
    + destruct (ensure_short cluster_id w Hshort)
        as (n' & w0 & evs0 & ls & Hpost & _ & Hrun).
      destruct Hpost as ([Ht _] & _ & _ & Hsub & _).
      unfold new_events, world_after. rewrite Hrun. cbn. rewrite Ht. cbn.
      rewrite <- app_assoc, drop_app_length.
      change (enable_hosts ([ListServices] ++ evs0)) with (enable_hosts evs0).
      by apply sublist_subseteq.
Qed.

End Claims.

(** ** The claims on concrete runs *)

(** Decide a closed proposition by evaluation. *)
Ltac by_compute := apply (bool_decide_unpack _); vm_compute; exact I.

Lemma double_set_iter_ok enable_faulty disable_faulty :
  @set_iter_ok (double enable_faulty disable_faulty).
Proof.
  intros l. split; [apply NoDup_remove_dups|]. intros x. apply elem_of_remove_dups.
Qed.

Lemma double_enable_as_spec enable_faulty disable_faulty :
  @enable_as_spec (double enable_faulty disable_faulty).
Proof.
  intros w host cluster_id addr inv. cbn. unfold spec_enable.
  destruct (bool_decide _); [done|]. by intros [= <-].
Qed.

Lemma double_disable_as_spec enable_faulty disable_faulty :
  @disable_as_spec (double enable_faulty disable_faulty).
Proof.
  intros w host cluster_id inv. cbn. unfold spec_disable.
  destruct (bool_decide _); [done|]. by intros [= <-].
Qed.

(** On a follower the depart handler of relation g1 changes nothing. *)
Lemma leadership_gating_witness :
  is_leader follower = false ∧
  @_on_ceph_nfs_connected (double [] []) rel_g1 follower = (Returned tt, follower) ∧
  @_on_ceph_nfs_departed (double [] []) rel_g1 follower = (Returned tt, follower).
Proof.
  split; [reflexivity|].
  pose proof (@leadership_gating (double [] []) rel_g1 follower eq_refl)
    as (Hc & _ & Hd & _).
  exact (conj Hc Hd).
Defined.

(** Group g1 is full: a third call in a row still returns [True] after the
    inventory query alone. *)
Lemma full_group_is_left_alone_witness :
  3 ≤ length (@nfs_services "g1" (services full_g1)) ∧
  @new_events bool
    (@_ensure_nfs_cluster (double [] []) "g1")
    (Nat.iter 2 (world_after (@_ensure_nfs_cluster (double [] []) "g1")) full_g1)
  = [ListServices].
Proof.
  assert (Hfull : 3 ≤ length (nfs_services "g1" (services full_g1)))
    by (vm_compute; lia).
  split; [exact Hfull|].
  exact (proj1 (proj2 (@full_group_is_left_alone (double [] []) "g1" full_g1 2 Hfull))).
Defined.

(** From an empty group the reconciliation ends with at most three members. *)
Lemma capacity_bound_witness :
  length (nfs_services "g1" (services fresh)) ≤ 3 ∧
  ∃ n', result_of (@final_nodes (double [] []) "g1") fresh = Returned n' ∧ n' ≤ 3.
Proof.
  assert (Hpre : length (nfs_services "g1" (services fresh)) ≤ 3)
    by (vm_compute; lia).
  split; [exact Hpre|].
  destruct (@capacity_bound (double [] []) "g1" fresh Hpre) as (n' & Hres & Hle & _).
  exists n'. exact (conj Hres Hle).
Defined.

(** Enable raises on h1: h2, h3 and h4 are enrolled all the same and the
    group ends with the three of them. *)
Lemma enrollment_is_best_effort_witness :
  @set_iter_ok (double ["h1"] []) ∧
  EnableNfs "h1" "g1" "10.1.0.1" false
    ∈ new_events (@_ensure_nfs_cluster (double ["h1"] []) "g1") fresh ∧
  ∃ n', result_of (@final_nodes (double ["h1"] []) "g1") fresh = Returned n' ∧
        n' = length (nfs_services "g1" (services fresh)) +
             length (filter (λ h, h ≠ "h1")
                       (enabled_hosts
                          (new_events (@_ensure_nfs_cluster (double ["h1"] []) "g1")
                             fresh))).
Proof.
  assert (Hfail : EnableNfs "h1" "g1" "10.1.0.1" false
            ∈ new_events (@_ensure_nfs_cluster (double ["h1"] []) "g1") fresh).
  { by_compute. }
  split; [apply double_set_iter_ok|]. split; [exact Hfail|].
  destruct (@enrollment_is_best_effort (double ["h1"] []) "g1" fresh "h1" "10.1.0.1"
              (double_set_iter_ok _ _) Hfail)
    as (n' & visited & unvisited & Hres & _ & _ & _ & _ & _ & Hcnt).
  exists n'. exact (conj Hres Hcnt).
Defined.

(** A clean teardown of g1 is followed by the revocation of its key. *)
Lemma revocation_needs_a_clean_teardown_witness :
  is_leader crowded = true ∧
  RemoveNamedKey "client.g1"
    ∈ new_events (@_on_ceph_nfs_departed (double [] []) rel_g1) crowded.
Proof.
  split; [reflexivity|].
  pose proof (@revocation_needs_a_clean_teardown (double [] []) rel_g1 crowded
                eq_refl) as Hthm.
  assert (Hclean : result_of (@_remove_nfs_cluster (double [] []) (_cluster_id rel_g1))
                     (departing crowded) = Returned tt) by (vm_compute; reflexivity).
  rewrite Hclean in Hthm. destruct Hthm as (_ & _ & rest & ->).
  apply elem_of_app. right. apply list_elem_of_here.
Defined.


(** With only h1 and h2 in the inventory, h1 is a candidate and the peer h3,
    which runs nothing, is not. *)
Lemma candidates_come_from_the_inventory_witness :
  @set_iter_ok (double [] []) ∧
  "h1" ∈ (@candidates (double [] []) (services sparse)) ∧
  "h3" ∉ (@candidates (double [] []) (services sparse)).
Proof.
  split; [apply double_set_iter_ok|].
  pose proof (@candidates_come_from_the_inventory (double [] []) "g1" sparse "h1"
                (double_set_iter_ok _ _)) as (_ & Hh1 & _).
  pose proof (@candidates_come_from_the_inventory (double [] []) "g1" sparse "h3"
                (double_set_iter_ok _ _)) as (_ & Hh3 & _).
  split.
  - apply Hh1. split.
    + exists (Svc "osd" "h1" None). split; [|reflexivity].
      by_compute.
    + intros (s & Hs & Hnfs & _). revert Hnfs.
      apply elem_of_cons in Hs as [->|Hs]; [done|].
      apply list_elem_of_singleton in Hs as ->. done.
  - intros Hin. apply Hh3 in Hin as [(s & Hs & Hloc) _]. revert Hloc.
    apply elem_of_cons in Hs as [->|Hs]; [done|].
    apply list_elem_of_singleton in Hs as ->. done.
Defined.

(** C1 as stated fails: group g1 runs on h1 and h2, Disable raises on h1;
    h2 is an instance of the group and no Disable is attempted on it. *)
Lemma teardown_best_effort_counterexample :
  Svc "nfs" "h2" (Some "g1") ∈ departing_services "g1" (services two_g1) ∧
  new_events (@_remove_nfs_cluster (double [] ["h1"]) "g1") two_g1
    = [ListServices; DisableNfs "h1" "g1" false] ∧
  ∀ ok, DisableNfs "h2" "g1" ok
          ∉ trace (world_after (@_remove_nfs_cluster (double [] ["h1"]) "g1") two_g1).
Proof.
  split_and!.
  - by_compute.
  - vm_compute. reflexivity.
  - intros [|]; by_compute.
Qed.

(** C2 as stated fails: on the leader, Disable raises on h1 during the
    teardown of the departing g1; the handler raises and the key of the
    consumer is never revoked. *)
Lemma revocation_after_failed_teardown_counterexample :
  is_leader two_g1 = true ∧
  result_of (@_on_ceph_nfs_departed (double [] ["h1"]) rel_g1) two_g1
    = Raised "disable_nfs failed on h1" ∧
  DisableNfs "h1" "g1" false
    ∈ new_events (@_on_ceph_nfs_departed (double [] ["h1"]) rel_g1) two_g1 ∧
  RemoveNamedKey "client.g1"
    ∉ trace (world_after (@_on_ceph_nfs_departed (double [] ["h1"]) rel_g1) two_g1).
Proof.
  split_and!.
  - reflexivity.
  - vm_compute. reflexivity.
  - by_compute.
  - by_compute.
Qed.

(** C3 as stated fails: h3 is a host of the peer topology with a public
    address and runs no nfs, so it is a candidate as the spec words the set;
    it appears in no inventory entry, so the code does not take it as a
    candidate, and the group stays at two members. *)
Lemma candidates_are_not_the_peer_topology_counterexample :
  "h3" ∈ spec_candidates sparse ∧
  ("h3" ∉ @candidates (double [] []) (services sparse)) ∧
  new_events (@_ensure_nfs_cluster (double [] []) "g1") sparse
    = [ListServices; EnableNfs "h1" "g1" "10.1.0.1" true;
       EnableNfs "h2" "g1" "10.1.0.2" true].
Proof.
  split_and!.
  - by_compute.
  - by_compute.
  - vm_compute. reflexivity.
Qed.


(** The rebalance at work: g1 is full on h1, h2, h3 and g2 has h4 alone;
    when g1 departs cleanly, g2 is reconciled on the freed h1 and h2 and
    reaches three members. *)
Example rebalance_scenario :
  new_events (@_on_ceph_nfs_departed (double [] []) rel_g1) crowded
    = [ListServices;
       DisableNfs "h1" "g1" true; DisableNfs "h2" "g1" true;
       DisableNfs "h3" "g1" true;
       RemoveNamedKey "client.g1";
       ListServices;
       EnableNfs "h1" "g2" "10.1.0.1" true; EnableNfs "h2" "g2" "10.1.0.2" true;
       ListFsVolumes; CreateFsVolume "g2-vol"; GetNamedKey "client.g2" caps;
       RelationUpdate 2
         [("fsid", "f5-1d"); ("mon-hosts", "[10.0.0.1, 10.0.0.2]");
          ("keyring", "key:client.g2"); ("volume", "g2-vol");
          ("client", "client.g2"); ("cluster-id", "g2")]].
Proof. vm_compute. reflexivity. Qed.

(** ** Further properties of the handler *)

Section Lookup.
Context `{Collaborators}.

(** *** [_get_public_address] *)

Lemma find_public_address_skip hostname before units :
  Forall (λ u, ¬ names_host hostname u) before →
  find_public_address hostname (before ++ units) =
  find_public_address hostname units.
Proof.
  induction 1 as [|u before Hu _ IH]; [done|].
  cbn. rewrite decide_False; [exact IH|].
  intros Heq. by apply Hu.
Qed.

Lemma find_public_address_split hostname units :
  (Forall (λ u, ¬ names_host hostname u) units ∧
   find_public_address hostname units = Some "") ∨
  (∃ before u after,
     units = before ++ u :: after ∧
     Forall (λ u, ¬ names_host hostname u) before ∧
     names_host hostname u ∧
     find_public_address hostname units = unit_data u !! "public-address").
Proof.
  induction units as [|u units IH].
  - left. by split.
  - destruct (decide (Some hostname = unit_data u !! unit_name u)) as [Heq|Hne].
    + right. exists [], u, units. split_and!; [done|done|done|].
      cbn. by rewrite decide_True.
    + assert (Hu : ¬ names_host hostname u) by (intros Hn; by apply Hne).
      destruct IH as [[Hall Hres]|(before & u' & after & -> & Hall & Hn & Hres)].
      * left. split; [by constructor|]. cbn. by rewrite decide_False.
      * right. exists (u :: before), u', after.
        split_and!; [done|by constructor|done|].
        cbn. by rewrite decide_False.
Qed.

Lemma find_public_address_unique hostname units u :
  NoDup (named_hosts units) → u ∈ units → names_host hostname u →
  find_public_address hostname units = unit_data u !! "public-address".
Proof.
  intros Hnd Hu Hn.
  destruct (find_public_address_split hostname units)
    as [[Hall _]|(before & u' & after & Heq & _ & Hn' & ->)].
  - by destruct (proj1 (Forall_forall _ _) Hall u Hu).
  - assert (u = u') as ->; [|done].
    apply (omap_NoDup_inj (λ u, unit_data u !! unit_name u) units u u' hostname);
      [done|done| |done|done].
    rewrite Heq. apply elem_of_app. right. apply list_elem_of_here.
Qed.

End Lookup.

Section Enrollment.
Context `{Collaborators}.

(** *** More on the enrollment loop *)

Lemma resolved_same_peers w w1 cluster_id e :
  peers w1 = peers w → resolved w1 cluster_id e → resolved w cluster_id e.
Proof. intros Hp. destruct e; try done. cbn. by rewrite Hp. Qed.

Lemma truthy_address v :
  truthy v = true → v = Some (default "" v) ∧ default "" v ≠ "".
Proof.
  destruct v as [s|]; [|done]. cbn. intros Ht. split; [done|].
  intros ->. by rewrite bool_decide_eq_true_2 in Ht.
Qed.

Lemma pass_on_resolved cluster_id c w :
  Forall (resolved w cluster_id) (pass_events cluster_id c (pass_on cluster_id c w)).
Proof.
  unfold pass_on, result_of, _get_public_address.
  destruct (peers w) as [units|] eqn:Hp; cbn; [|constructor].
  destruct (truthy (find_public_address c units)) eqn:Ht; [|constructor].
  apply truthy_address in Ht as [Hv Hne].
  destruct (enable_nfs w c cluster_id _); cbn; repeat constructor; try done;
    exists units; by rewrite Hp.
Qed.

Lemma pass_on_no_peers cluster_id c w :
  peers w = None → pass_on cluster_id c w = LookupRaised no_peers_error.
Proof. intros Hp. unfold pass_on, result_of, _get_public_address. by rewrite Hp. Qed.

Lemma enroll_more cluster_id cands n w :
  ∃ n' w' evs ls,
    enroll cluster_id cands n w = (Returned n', w') ∧
    grows w w' evs ls ∧
    Forall (resolved w cluster_id) evs ∧
    (enable_as_spec →
     services w' ≡ₚ services w ++ (enrolled cluster_id <$> enabled_hosts evs)) ∧
    (peers w = None →
     evs = [] ∧ n' = n ∧
     ls = (λ c, error_enable cluster_id c no_peers_error) <$> cands).
Proof.
  revert n w. induction cands as [|c rest IH]; intros n w.
  - exists n, w, [], []. split_and!; [done|apply grows_refl|constructor| |done].
    intros _. cbn. by rewrite app_nil_r.
  - rewrite enroll_cons. cbv zeta.
    pose proof (pass_world_grows cluster_id c (pass_on cluster_id c w) w) as Hg.
    pose proof (pass_world_same_model cluster_id c (pass_on cluster_id c w) w)
      as (_ & _ & Hpeers & _).
    pose proof (pass_on_resolved cluster_id c w) as Hres.
    pose proof (pass_on_no_peers cluster_id c w) as Hnone.
    pose proof (pass_on_enrolled cluster_id c w) as Hdone.
    set (p := pass_on cluster_id c w) in *.
    set (w1 := pass_world cluster_id c p w) in *.
    assert (Hstep : ∀ m,
              (∀ a inv, p ≠ Enrolled a inv) ∨ (∃ a inv, p = Enrolled a inv ∧ m = n + 1) →
              (peers w = None → m = n) →
              ∃ n' w' evs ls,
                enroll cluster_id rest m w1 = (Returned n', w') ∧
                grows w w' evs ls ∧
                Forall (resolved w cluster_id) evs ∧
                (enable_as_spec →
                 services w' ≡ₚ services w ++ (enrolled cluster_id <$> enabled_hosts evs)) ∧
                (peers w = None →
                 evs = [] ∧ n' = n ∧
                 ls = (λ c, error_enable cluster_id c no_peers_error) <$> c :: rest)).
    { intros m Hm Hmn.
      destruct (IH m w1) as (n' & w' & evs & ls & Hrun & Hg' & Hall & Hinv & Hnp).
      exists n', w', (pass_events cluster_id c p ++ evs),
        (pass_log cluster_id c p ++ ls).
      split_and!.
      - done.
      - exact (grows_trans _ _ _ _ _ _ _ Hg Hg').
      - apply Forall_app. split; [done|].
        eapply Forall_impl; [exact Hall|]. intros e. by apply resolved_same_peers.
      - intros Hspec. etrans; [exact (Hinv Hspec)|].
        unfold enabled_hosts. rewrite omap_app, fmap_app.
        destruct Hm as [Hm|(a & inv & Hp & _)].
        + assert (services w1 = services w ∧
                  omap (λ e, match e with EnableNfs h _ _ true => Some h | _ => None end)
                    (pass_events cluster_id c p) = []) as [-> ->]; [|done].
          subst w1. destruct p as [| | |a inv]; try done. by destruct (Hm a inv).
        + subst w1. rewrite Hp. cbn [pass_world services set_log set_trace
                                      set_services pass_events omap fmap list_fmap].
          rewrite (Hspec _ _ _ _ _ (Hdone a inv Hp)).
          by rewrite <- app_assoc.
      - intros Hp. rewrite <- Hpeers in Hp.
        destruct (Hnp Hp) as (-> & -> & ->). rewrite Hpeers in Hp.
        rewrite (Hnone Hp). cbn. split_and!; [done|by apply Hmn|done]. }
    destruct p as [ex| |addr ex|addr inv] eqn:Hp.
    + apply Hstep; [by left|done].
    + apply Hstep; [by left|done].
    + apply Hstep; [by left|done].
    + destruct (n + 1 =? 3)%nat eqn:E.
      * exists (n + 1), w1, [EnableNfs c cluster_id addr true], [].
        split_and!; [done|exact Hg|done| |].
        -- intros Hspec. subst w1. cbn.
           exact (Hspec _ _ _ _ _ (Hdone addr inv eq_refl)).
        -- intros Hnp. by specialize (Hnone Hnp).
      * apply Hstep; [right; by eexists _, _|].
        intros Hnp. by specialize (Hnone Hnp).
Qed.

(** What a run leaves to observe. *)
Lemma run_observed {A} (m : M A) w r w' evs ls :
  m w = (r, w') → grows w w' evs ls →
  result_of m w = r ∧ world_after m w = w' ∧
  new_events m w = evs ∧ new_log m w = ls.
Proof.
  intros Hrun Hg.
  assert (Hw : world_after m w = w') by (unfold world_after; by rewrite Hrun).
  rewrite <- Hw in Hg. apply grows_new_events in Hg as [He Hl].
  unfold result_of. by rewrite Hrun.
Qed.

(** [_ensure_nfs_cluster] on a group short of members, with what the loop
    leaves. *)
Lemma ensure_short_more cluster_id w :
  let pre := length (nfs_services cluster_id (services w)) in
  pre < 3 →
  ∃ n' w' evs ls,
    enable_hosts evs `sublist_of` candidates (services w) ∧
    n' = pre + length (enabled_hosts evs) ∧
    _ensure_nfs_cluster cluster_id w = (Returned (negb (n' =? 0)), w') ∧
    grows w w' (ListServices :: evs) (ls ++ [verdict cluster_id n']) ∧
    Forall (resolved w cluster_id) evs ∧
    (enable_as_spec →
     services w' ≡ₚ services w ++ (enrolled cluster_id <$> enabled_hosts evs)) ∧
    (peers w = None →
     evs = [] ∧ n' = pre ∧
     ls = (λ c, error_enable cluster_id c no_peers_error) <$> candidates (services w)).
Proof.
  intros pre Hshort.
  destruct (ensure_short cluster_id w Hshort)
    as (n' & w0 & evs & ls & Hpost & Hfin & Hrun).
  rewrite final_nodes_short in Hfin by done. fold pre in Hfin.
  destruct (enroll_more cluster_id (candidates (services w)) pre (listed w))
    as (n2 & w2 & evs2 & ls2 & Hrun2 & Hg2 & Hall & Hinv & Hnp).
  rewrite Hfin in Hrun2. injection Hrun2 as <- <-.
  destruct Hpost as (Hg & _ & _ & Hsub & Hcnt & _).
  destruct (grows_inj _ _ _ _ _ _ Hg Hg2) as [<- <-].
  destruct Hg as [Ht Hl]. cbn in Ht, Hl.
  exists n', (set_log (log w0 ++ [verdict cluster_id n']) w0), evs, ls.
  split_and!.
  - done.
  - done.
  - done.
  - split; cbn.
    + rewrite Ht. by rewrite <- app_assoc.
    + rewrite Hl. by rewrite <- app_assoc.
  - done.
  - done.
  - done.
Qed.

End Enrollment.

Section Reconciliation.
Context `{Collaborators}.

Lemma ensure_full_grows cluster_id w :
  grows w (set_log (log w ++ [info_full cluster_id]) (listed w))
    [ListServices] [info_full cluster_id].
Proof. done. Qed.

Lemma enabled_sublist_enable evs : enabled_hosts evs `sublist_of` enable_hosts evs.
Proof.
  induction evs as [|e evs IH]; [done|].
  destruct e as [|h c a [|]| | | | | | | |]; cbn;
    try done; [by apply sublist_skip|by apply sublist_cons].
Qed.

(** X1. [_get_public_address] raises when the peers relation is absent.
    Otherwise it returns, changes nothing, and answers with the first unit
    (in iteration order) whose data names the host under the unit's own
    name: the answer is that unit's ["public-address"] entry ([None] when the
    unit has none, later units are not looked at), and the empty string when
    no unit names the host. *)
Theorem public_address_is_the_first_match hostname w :
  match peers w with
  | None => _get_public_address hostname w = (Raised no_peers_error, w)
  | Some units =>
      ∃ v, _get_public_address hostname w = (Returned v, w) ∧
           ((Forall (λ u, ¬ names_host hostname u) units ∧ v = Some "") ∨
            (∃ before u after,
               units = before ++ u :: after ∧
               Forall (λ u, ¬ names_host hostname u) before ∧
               names_host hostname u ∧
               v = unit_data u !! "public-address"))
  end.
Proof.
  unfold _get_public_address. destruct (peers w) as [units|]; [|done].
  exists (find_public_address hostname units). split; [done|].
  destruct (find_public_address_split hostname units)
    as [[Hall ->]|(before & u & after & -> & Hall & Hn & ->)].
  - by left.
  - right. by exists before, u, after.
Qed.

(** X2. When no two units of the peers relation name the same host, the
    answer of [_get_public_address] does not depend on the order in which
    the units are iterated. *)
Theorem public_address_ignores_unit_order hostname w w' units units' :
  peers w = Some units → peers w' = Some units' →
  NoDup (named_hosts units) → units ≡ₚ units' →
  result_of (_get_public_address hostname) w' =
  result_of (_get_public_address hostname) w.
Proof.
  intros Hp Hp' Hnd Hperm.
  unfold result_of, _get_public_address. rewrite Hp, Hp'. cbn. f_equal.
  assert (Hnd' : NoDup (named_hosts units')).
  { unfold named_hosts in *. by rewrite <- Hperm. }
  destruct (find_public_address_split hostname units)
    as [[Hall ->]|(before & u & after & Heq & _ & Hn & ->)].
  - destruct (find_public_address_split hostname units')
      as [[_ ->]|(before & u & after & Heq & _ & Hn & _)]; [done|].
    assert (Hu : u ∈ units).
    { rewrite Hperm, Heq. apply elem_of_app. right. apply list_elem_of_here. }
    by destruct (proj1 (Forall_forall _ _) Hall u Hu).
  - apply find_public_address_unique; [done| |done].
    rewrite <- Hperm, Heq. apply elem_of_app. right. apply list_elem_of_here.
Qed.

(** X3. Every Enable call of [_ensure_nfs_cluster] is for the cluster being
    reconciled and passes the non-empty address that the peers relation gives
    for the host; a candidate for which the lookup gives no address ([None]
    or the empty string) sees no Enable call.  No Enable call is made on a
    host that runs an nfs instance of any group, and no host sees two Enable
    calls in one reconciliation. *)
Theorem enable_calls_are_resolved cluster_id w :
  let evs := new_events (_ensure_nfs_cluster cluster_id) w in
  Forall (resolved w cluster_id) evs ∧
  (∀ h units, peers w = Some units →
     truthy (find_public_address h units) = false → h ∉ enable_hosts evs) ∧
  (∀ h, h ∈ enable_hosts evs → h ∉ exclude_hosts (services w)) ∧
  (set_iter_ok → NoDup (enable_hosts evs)).
Proof.
  intros evs.
  assert (Hcase : Forall (resolved w cluster_id) evs ∧
                  enable_hosts evs `sublist_of` candidates (services w)).
  { destruct (le_lt_dec 3 (length (nfs_services cluster_id (services w))))
      as [Hfull|Hshort].
    - destruct (ensure_full cluster_id w Hfull) as [Hrun _].
      destruct (run_observed _ _ _ _ _ _ Hrun (ensure_full_grows cluster_id w))
        as (_ & _ & He & _).
      subst evs. rewrite He. split; [by repeat constructor|apply sublist_nil_l].
    - destruct (ensure_short_more cluster_id w Hshort)
        as (n' & w' & evs0 & ls & Hsub & _ & Hrun & Hg & Hall & _).
      destruct (run_observed _ _ _ _ _ _ Hrun Hg) as (_ & _ & He & _).
      subst evs. rewrite He. split; [by constructor|done]. }
  destruct Hcase as [Hall Hsub]. split_and!.
  - done.
  - intros h units Hp Hfalsy Hin.
    apply list_elem_of_omap in Hin as (e & He & Hh).
    destruct e as [|h' c a ok| | | | | | | |]; try done. injection Hh as ->.
    pose proof (proj1 (Forall_forall _ _) Hall _ He) as (_ & Hne & units' & Hp' & Hfind).
    rewrite Hp in Hp'. injection Hp' as <-. rewrite Hfind in Hfalsy. cbn in Hfalsy.
    by rewrite bool_decide_eq_false_2 in Hfalsy.
  - intros h Hin. eapply sublist_subseteq in Hin; [|exact Hsub].
    by apply list_elem_of_filter in Hin as [Hnot _].
  - intros Hset. eapply sublist_NoDup; [|exact Hsub]. by apply candidates_NoDup.
Qed.

(** X4. Without a peers relation the reconciliation of a group short of
    members does not raise: the lookup's exception is caught for every
    candidate and logged, no Enable call is made, the inventory stays as it
    was, and the result is [True] exactly when the group already had a
    member. *)
Theorem missing_peers_relation_enrolls_nobody cluster_id w :
  let pre := length (nfs_services cluster_id (services w)) in
  peers w = None → pre < 3 →
  result_of (_ensure_nfs_cluster cluster_id) w = Returned (negb (pre =? 0)) ∧
  new_events (_ensure_nfs_cluster cluster_id) w = [ListServices] ∧
  new_log (_ensure_nfs_cluster cluster_id) w =
    ((λ c, error_enable cluster_id c no_peers_error) <$> candidates (services w))
    ++ [verdict cluster_id pre] ∧
  services (world_after (_ensure_nfs_cluster cluster_id) w) = services w.
Proof.
  intros pre Hnone Hshort.
  destruct (ensure_short_more cluster_id w Hshort)
    as (n' & w' & evs & ls & _ & _ & Hrun & Hg & _ & _ & Hnp).
  destruct (Hnp Hnone) as (-> & -> & ->).
  destruct (run_observed _ _ _ _ _ _ Hrun Hg) as (-> & Hw & -> & ->).
  split_and!; [done|done|done|].
  rewrite Hw.
  destruct (ensure_short cluster_id w Hshort)
    as (n2 & w0 & evs0 & ls0 & Hpost & _ & Hrun0).
  rewrite Hrun in Hrun0. injection Hrun0 as _ ->.
  destruct Hpost as (Hg0 & _ & _ & _ & _ & _ & _ & Hinv).
  cbn. rewrite Hinv; [done|].
  destruct Hg as [Ht _]. destruct Hg0 as [Ht0 _]. cbn in Ht, Ht0.
  rewrite Ht0, <- app_assoc in Ht. apply app_inv_head in Ht.
  by injection Ht as ->.
Qed.

(** X5. [_ensure_nfs_cluster] returns [False] exactly when the group had no
    member and no Enable call returned; the last record it logs is its
    verdict on the member count it ends with. *)
Theorem ensure_fails_only_with_no_member cluster_id w :
  let pre := length (nfs_services cluster_id (services w)) in
  let evs := new_events (_ensure_nfs_cluster cluster_id) w in
  let ls := new_log (_ensure_nfs_cluster cluster_id) w in
  ∃ ensured,
    result_of (_ensure_nfs_cluster cluster_id) w = Returned ensured ∧
    (ensured = false ↔ pre = 0 ∧ enabled_hosts evs = []) ∧
    last ls = Some (if 3 <=? pre then info_full cluster_id
                    else verdict cluster_id (pre + length (enabled_hosts evs))).
Proof.
  intros pre evs ls.
  destruct (le_lt_dec 3 pre) as [Hfull|Hshort].
  - destruct (ensure_full cluster_id w Hfull) as [Hrun _].
    destruct (run_observed _ _ _ _ _ _ Hrun (ensure_full_grows cluster_id w))
      as (Hr & _ & He & Hl).
    exists true. subst evs ls. rewrite Hr, He, Hl.
    apply Nat.leb_le in Hfull as Hb. rewrite Hb. split_and!; [done| |done].
    split; [done|]. intros [Hz _]. lia.
  - destruct (ensure_short_more cluster_id w Hshort)
      as (n' & w' & evs0 & ls0 & _ & Hcnt & Hrun & Hg & _).
    destruct (run_observed _ _ _ _ _ _ Hrun Hg) as (Hr & _ & He & Hl).
    exists (negb (n' =? 0)). subst evs ls. rewrite Hr, He, Hl.
    change (enabled_hosts (ListServices :: evs0)) with (enabled_hosts evs0).
    fold pre in Hcnt. rewrite <- Hcnt.
    assert ((3 <=? pre) = false) as -> by (apply Nat.leb_gt; lia).
    split_and!; [done| |by rewrite last_snoc].
    rewrite negb_false_iff, Nat.eqb_eq. split.
    + intros ->. split; [lia|]. apply nil_length_inv. lia.
    + intros [Hz Hnil]. rewrite Hnil in Hcnt. cbn in Hcnt. lia.
Qed.

Lemma all_nfs_services_enrolled cluster_id svcs hs :
  all_nfs_services (svcs ++ (enrolled cluster_id <$> hs)) =
  all_nfs_services svcs ++ (enrolled cluster_id <$> hs).
Proof.
  unfold all_nfs_services. rewrite filter_app. f_equal.
  apply filter_all, Forall_fmap, Forall_true. done.
Qed.

(** Under an Enable that does what the spec says, the inventory after a
    reconciliation. *)
Lemma ensure_inventory cluster_id w :
  let evs := new_events (_ensure_nfs_cluster cluster_id) w in
  let w' := world_after (_ensure_nfs_cluster cluster_id) w in
  enable_as_spec →
  services w' ≡ₚ services w ++ (enrolled cluster_id <$> enabled_hosts evs) ∧
  enable_hosts evs `sublist_of` candidates (services w).
Proof.
  intros evs w' Hspec.
  destruct (le_lt_dec 3 (length (nfs_services cluster_id (services w))))
    as [Hfull|Hshort].
  - destruct (ensure_full cluster_id w Hfull) as [Hrun _].
    destruct (run_observed _ _ _ _ _ _ Hrun (ensure_full_grows cluster_id w))
      as (_ & Hw & He & _).
    subst evs w'. rewrite He, Hw. cbn. rewrite app_nil_r.
    split; [done|apply sublist_nil_l].
  - destruct (ensure_short_more cluster_id w Hshort)
      as (n' & w1 & evs0 & ls & Hsub & _ & Hrun & Hg & _ & Hinv & _).
    destruct (run_observed _ _ _ _ _ _ Hrun Hg) as (_ & Hw & He & _).
    subst evs w'. rewrite He, Hw. split; [by apply Hinv|done].
Qed.

Lemma all_nfs_services_Permutation l l' :
  l ≡ₚ l' → all_nfs_services l ≡ₚ all_nfs_services l'.
Proof. intros Hp. unfold all_nfs_services. by rewrite Hp. Qed.

Lemma nfs_services_Permutation g l l' :
  l ≡ₚ l' → nfs_services g l ≡ₚ nfs_services g l'.
Proof.
  intros Hp. unfold nfs_services. by rewrite (all_nfs_services_Permutation l l' Hp).
Qed.

(** X6. Under an Enable that does what the spec says, a reconciliation
    leaves, up to the order of the listing, the inventory it found and one
    nfs instance of the group for each Enable call that returned; the
    membership of every other group is as it was, and when no host ran two
    nfs instances before, none does after. *)
Theorem enrollment_extends_the_inventory cluster_id w :
  let evs := new_events (_ensure_nfs_cluster cluster_id) w in
  let w' := world_after (_ensure_nfs_cluster cluster_id) w in
  enable_as_spec →
  services w' ≡ₚ services w ++ (enrolled cluster_id <$> enabled_hosts evs) ∧
  (∀ g, g ≠ cluster_id →
        nfs_services g (services w') ≡ₚ nfs_services g (services w)) ∧
  (set_iter_ok → one_nfs_per_host (services w) → one_nfs_per_host (services w')).
Proof.
  intros evs w' Hspec.
  destruct (ensure_inventory cluster_id w Hspec) as [Hsv Hsub].
  fold evs w' in Hsv, Hsub. split_and!.
  - done.
  - intros g Hg. rewrite (nfs_services_Permutation g _ _ Hsv). unfold nfs_services.
    rewrite all_nfs_services_enrolled, filter_app.
    rewrite (filter_none _ (enrolled cluster_id <$> _)); [by rewrite app_nil_r|].
    apply Forall_fmap, Forall_true. intros h [= Heq]. by apply Hg.
  - intros Hset Hone. unfold one_nfs_per_host, exclude_hosts in *.
    rewrite (all_nfs_services_Permutation _ _ Hsv).
    rewrite all_nfs_services_enrolled, fmap_app, <- list_fmap_compose.
    assert ((location ∘ enrolled cluster_id) <$> enabled_hosts evs = enabled_hosts evs)
      as -> by apply list_fmap_id.
    assert (Hen : enabled_hosts evs `sublist_of` candidates (services w)).
    { etrans; [apply enabled_sublist_enable|done]. }
    apply NoDup_app. split_and!.
    + done.
    + intros h Hh Hin. eapply sublist_subseteq in Hin; [|exact Hen].
      by apply list_elem_of_filter in Hin as [Hnot _].
    + eapply sublist_NoDup; [|exact Hen]. by apply candidates_NoDup.
Qed.

(** X7. A reconciliation that ends with three members is final: under an
    Enable that does what the spec says, the next reconciliation of the
    group finds it full, makes no actuator call, returns [True] and leaves
    the inventory as it is. *)
Theorem reconcile_is_stable_at_three cluster_id w :
  let w1 := world_after (_ensure_nfs_cluster cluster_id) w in
  enable_as_spec →
  result_of (final_nodes cluster_id) w = Returned 3 →
  result_of (_ensure_nfs_cluster cluster_id) w1 = Returned true ∧
  new_events (_ensure_nfs_cluster cluster_id) w1 = [ListServices] ∧
  services (world_after (_ensure_nfs_cluster cluster_id) w1) = services w1.
Proof.
  intros w1 Hspec Hfin.
  assert (Hfull : 3 ≤ length (nfs_services cluster_id (services w1))).
  { destruct (le_lt_dec 3 (length (nfs_services cluster_id (services w))))
      as [Hfull|Hshort].
    - subst w1. by rewrite ensure_full_services.
    - subst w1. rewrite ensure_short_services by done.
      unfold result_of in Hfin. rewrite final_nodes_short in Hfin by done.
      unfold world_after.
      destruct (enroll cluster_id (candidates (services w))
                  (length (nfs_services cluster_id (services w))) (listed w))
        as [r w0] eqn:Hrun.
      cbn in Hfin. subst r. cbn [snd].
      by rewrite (enroll_member_count cluster_id (candidates (services w))
                    (length (nfs_services cluster_id (services w))) (listed w) 3 w0
                    Hspec eq_refl Hrun). }
  destruct (ensure_full cluster_id w1 Hfull) as [Hrun _].
  destruct (run_observed _ _ _ _ _ _ Hrun (ensure_full_grows cluster_id w1))
    as (-> & -> & -> & _).
  done.
Qed.

Lemma failed_is_not_enabled evs h cluster_id a :
  NoDup (enable_hosts evs) → EnableNfs h cluster_id a false ∈ evs →
  h ∉ enabled_hosts evs.
Proof.
  intros Hnd Hfail Hin.
  apply list_elem_of_omap in Hin as (e & He & Hfe).
  destruct e as [|h' c' a' [|]| | | | | | | |]; try done.
  injection Hfe as ->.
  assert (EnableNfs h c' a' true = EnableNfs h cluster_id a false) as Heq; [|done].
  by eapply (omap_NoDup_inj _ evs _ _ h Hnd).
Qed.

(** X14. The candidates after a reconciliation, under an Enable that does
    what the spec says: a host is a candidate afterwards exactly when it was
    one before and no Enable call on it returned.  So a host that was
    enrolled is offered to no other group, and a host whose Enable call
    raised is a candidate again at the next reconciliation. *)
Theorem unenrolled_candidates_stay_candidates cluster_id w :
  let evs := new_events (_ensure_nfs_cluster cluster_id) w in
  let w' := world_after (_ensure_nfs_cluster cluster_id) w in
  enable_as_spec → set_iter_ok →
  (∀ h, h ∈ candidates (services w') ↔
        h ∈ candidates (services w) ∧ h ∉ enabled_hosts evs) ∧
  (∀ h a, EnableNfs h cluster_id a false ∈ evs → h ∈ candidates (services w')).
Proof.
  intros evs w' Hspec Hset.
  destruct (ensure_inventory cluster_id w Hspec) as [Hsv Hsub].
  fold evs w' in Hsv, Hsub.
  assert (Hiff : ∀ h, h ∈ candidates (services w') ↔
                      h ∈ candidates (services w) ∧ h ∉ enabled_hosts evs).
  { assert (Hmem : ∀ s, s ∈ services w' ↔
                        s ∈ services w ++ (enrolled cluster_id <$> enabled_hosts evs)).
    { intros s. by rewrite Hsv. }
    intros h. rewrite !elem_of_candidates by done. split.
    - intros [(s & Hs & Hloc) Hnot].
      assert (Hen : h ∉ enabled_hosts evs).
      { intros Hin. apply Hnot. exists (enrolled cluster_id h).
        split_and!; [|done|done].
        apply Hmem, elem_of_app. right. by apply list_elem_of_fmap_2. }
      split_and!; [|by intros (s' & Hs' & Hnfs); apply Hnot; exists s';
                        split; [apply Hmem, elem_of_app; left|]|done].
      apply Hmem, elem_of_app in Hs as [Hs|Hs]; [by exists s|].
      apply list_elem_of_fmap in Hs as (h' & -> & Hh'). cbn in Hloc. by subst h'.
    - intros [[(s & Hs & Hloc) Hnot] Hen]. split.
      + exists s. split; [|done]. apply Hmem, elem_of_app. by left.
      + intros (s' & Hs' & Hnfs & Hloc').
        apply Hmem, elem_of_app in Hs' as [Hs'|Hs']; [apply Hnot; by exists s'|].
        apply list_elem_of_fmap in Hs' as (h' & -> & Hh'). cbn in Hloc'. by subst h'. }
  split; [exact Hiff|].
  intros h a Hfail. apply Hiff. split.
  - eapply sublist_subseteq; [exact Hsub|].
    apply list_elem_of_omap. by eexists (EnableNfs h cluster_id a false).
  - eapply failed_is_not_enabled; [|exact Hfail].
    eapply sublist_NoDup; [|exact Hsub]. by apply candidates_NoDup.
Qed.

End Reconciliation.

Section Teardown.
Context `{Collaborators}.

(** *** Teardown and the inventory *)

Lemma filter_comm {A} (P Q : A → Prop) `{∀ x, Decision (P x)} `{∀ x, Decision (Q x)}
    (l : list A) :
  filter P (filter Q l) = filter Q (filter P l).
Proof.
  rewrite !list_filter_filter. apply list_filter_iff.
  intros x. split; intros [? ?]; by split.
Qed.

Lemma filter_iff_in {A} (P Q : A → Prop) `{∀ x, Decision (P x)} `{∀ x, Decision (Q x)}
    (l : list A) :
  (∀ x, x ∈ l → P x ↔ Q x) → filter P l = filter Q l.
Proof.
  induction l as [|a l IH]; intros Hiff; [done|].
  rewrite !filter_cons, IH.
  - destruct (decide (P a)) as [HP|HP], (decide (Q a)) as [HQ|HQ]; try done;
      destruct (Hiff a (list_elem_of_here _ _)); tauto.
  - intros x Hx. apply Hiff. by apply list_elem_of_further.
Qed.

Lemma departing_services_nfs cluster_id svcs :
  departing_services cluster_id svcs = nfs_services cluster_id svcs.
Proof.
  unfold departing_services, nfs_services, all_nfs_services.
  rewrite list_filter_filter. apply list_filter_iff.
  intros s. split; intros [? ?]; by split.
Qed.

(** Under a Disable that does what the spec says, the loop of the teardown
    has removed the instances of the group at the hosts it disabled, however
    it ends. *)
Lemma disable_all_inventory cluster_id l w :
  disable_as_spec →
  ∃ r w' evs ls finished,
    disable_all cluster_id l w = (r, w') ∧ grows w w' evs ls ∧
    disabled_hosts evs = location <$> finished ∧
    (r = Returned tt → finished = l) ∧
    services w' =
      filter (λ s, ¬ (member_of cluster_id s ∧ location s ∈ location <$> finished))
        (services w).
Proof.
  intros Hspec. revert w. induction l as [|s l IH]; intros w.
  - exists (Returned tt), w, [], [], [].
    split_and!; [done|apply grows_refl|done|done|].
    symmetry. apply filter_all, Forall_forall.
    intros x _ [_ Hin]. by apply elem_of_nil in Hin.
  - rewrite disable_all_cons.
    destruct (disable_nfs w (location s) cluster_id) as [inv|ex] eqn:E.
    + set (w1 := set_trace _ _).
      destruct (IH w1) as (r & w' & evs & ls & finished & Hrun & Hg & Hd & Hall & Hsv).
      exists r, w', (DisableNfs (location s) cluster_id true :: evs), ls, (s :: finished).
      split_and!.
      * done.
      * apply (grows_trans w w1 w' [_] [] evs ls); [|done].
        split; cbn; [done|by rewrite app_nil_r].
      * unfold disabled_hosts in *. cbn. by rewrite Hd.
      * intros Hr. by rewrite (Hall Hr).
      * rewrite Hsv. subst w1. cbn [services set_trace set_services].
        rewrite (Hspec _ _ _ _ E), list_filter_filter.
        apply list_filter_iff. intros x. rewrite fmap_cons, elem_of_cons.
        unfold member_of. split.
        -- intros [Hl Hs] [[Hnfs Hgrp] [Hloc|Hin]]; [apply Hs|apply Hl]; done.
        -- intros Hnot. split.
           ++ intros [Hm Hin]. apply Hnot. auto.
           ++ intros (Hnfs & Hloc & Hgrp). apply Hnot. auto.
    + eexists (Raised ex), _, [DisableNfs (location s) cluster_id false], [_], [].
      split_and!; [reflexivity|done|done|done|].
      cbn. symmetry. apply filter_all, Forall_forall.
      intros x _ [_ Hin]. by apply elem_of_nil in Hin.
Qed.

Lemma remove_inventory cluster_id w :
  disable_as_spec →
  let evs := new_events (_remove_nfs_cluster cluster_id) w in
  let w' := world_after (_remove_nfs_cluster cluster_id) w in
  services w' =
    filter (λ s, ¬ (member_of cluster_id s ∧ location s ∈ disabled_hosts evs))
      (services w) ∧
  (result_of (_remove_nfs_cluster cluster_id) w = Returned tt →
   services w' = filter (λ s, ¬ member_of cluster_id s) (services w)).
Proof.
  intros Hspec evs w'.
  destruct (disable_all_inventory cluster_id
              (departing_services cluster_id (services w)) (listed w) Hspec)
    as (r & w1 & evs1 & ls & finished & Hrun & Hg & Hd & Hall & Hsv).
  rewrite <- remove_nfs_cluster_unfold in Hrun.
  assert (Hg' : grows w w1 (ListServices :: evs1) ls).
  { apply (grows_trans w (listed w) w1 [_] [] evs1 ls); [|done].
    split; cbn; [done|by rewrite app_nil_r]. }
  destruct (run_observed _ _ _ _ _ _ Hrun Hg') as (Hr & Hw & He & _).
  subst evs w'. rewrite Hr, Hw, He.
  change (disabled_hosts (ListServices :: evs1)) with (disabled_hosts evs1).
  rewrite Hd. split; [done|]. intros Hret. rewrite Hsv, (Hall Hret).
  apply filter_iff_in. intros s Hs. split.
  - intros Hnot Hm. apply Hnot. split; [done|].
    apply list_elem_of_fmap. exists s. split; [done|].
    unfold departing_services. by apply list_elem_of_filter.
  - intros Hnot [Hm _]. by apply Hnot.
Qed.

(** X8. Under a Disable that does what the spec says, a teardown removes
    from the inventory the nfs instances of the group at the hosts whose
    Disable returned, and nothing else: entries of other groups and of other
    services stay, and no host gains an nfs instance.  A teardown that
    returns leaves the group without a member. *)
Theorem teardown_removes_only_the_group cluster_id w :
  let evs := new_events (_remove_nfs_cluster cluster_id) w in
  let w' := world_after (_remove_nfs_cluster cluster_id) w in
  disable_as_spec →
  services w' =
    filter (λ s, ¬ (member_of cluster_id s ∧ location s ∈ disabled_hosts evs))
      (services w) ∧
  (∀ s, s ∈ services w → ¬ member_of cluster_id s → s ∈ services w') ∧
  (one_nfs_per_host (services w) → one_nfs_per_host (services w')) ∧
  (result_of (_remove_nfs_cluster cluster_id) w = Returned tt →
   nfs_services cluster_id (services w') = [] ∧
   services w' = filter (λ s, ¬ member_of cluster_id s) (services w)).
Proof.
  intros evs w' Hspec.
  destruct (remove_inventory cluster_id w Hspec) as [Hsv Hret].
  fold evs w' in Hsv, Hret. split_and!.
  - done.
  - intros s Hs Hnot. rewrite Hsv. apply list_elem_of_filter. split; [|done].
    by intros [Hm _].
  - unfold one_nfs_per_host, exclude_hosts, all_nfs_services.
    intros Hone. rewrite Hsv, filter_comm.
    eapply sublist_NoDup; [exact Hone|]. apply fmap_sublist, sublist_filter.
  - intros Hr. pose proof (Hret Hr) as Hall.
    split; [|done]. rewrite Hall, <- departing_services_nfs.
    unfold departing_services. rewrite list_filter_filter.
    apply filter_none, Forall_forall. intros s _ [Hm Hnot]. by apply Hnot.
Qed.

Lemma filter_nil_Forall {A} (P : A → Prop) `{∀ x, Decision (P x)} (l : list A) :
  filter P l = [] → Forall (λ x, ¬ P x) l.
Proof.
  induction l as [|a l IH]; [done|]. rewrite filter_cons.
  destruct (decide (P a)); [done|]. intros Hnil. constructor; [done|by apply IH].
Qed.

(** X9. Teardown undoes enrollment: under an Enable and a Disable that do
    what the spec says, when a group without a member is reconciled and then
    torn down with no Disable call raising, the teardown calls Disable
    exactly once on each host whose Enable returned and on no other host,
    and leaves the inventory the reconciliation started from, up to the
    order of the listing. *)
Theorem teardown_undoes_enrollment cluster_id w :
  let w1 := world_after (_ensure_nfs_cluster cluster_id) w in
  let hosts := enabled_hosts (new_events (_ensure_nfs_cluster cluster_id) w) in
  enable_as_spec → disable_as_spec →
  nfs_services cluster_id (services w) = [] →
  result_of (_remove_nfs_cluster cluster_id) w1 = Returned tt →
  (∃ order, order ≡ₚ hosts ∧
     new_events (_remove_nfs_cluster cluster_id) w1 =
       ListServices :: ((λ h, DisableNfs h cluster_id true) <$> order)) ∧
  services (world_after (_remove_nfs_cluster cluster_id) w1) ≡ₚ services w.
Proof.
  intros w1 hosts Henable Hdisable Hempty Hret.
  destruct (ensure_inventory cluster_id w Henable) as [Hsv _].
  fold w1 hosts in Hsv.
  rewrite <- departing_services_nfs in Hempty.
  assert (Hnone : Forall (λ s, ¬ member_of cluster_id s) (services w)).
  { by apply filter_nil_Forall in Hempty. }
  assert (Hmembers : Forall (member_of cluster_id) (enrolled cluster_id <$> hosts)).
  { apply Forall_fmap, Forall_true. done. }
  split.
  - destruct (remove_run cluster_id w1)
      as [(w2 & Hrun & Hg & _)|(ex & w2 & b & s & r & _ & Hrun & _)];
      [|unfold result_of in Hret; by rewrite Hrun in Hret].
    destruct (run_observed _ _ _ _ _ _ Hrun Hg) as (_ & _ & -> & _).
    exists (location <$> departing_services cluster_id (services w1)). split.
    + unfold departing_services. rewrite Hsv, filter_app.
      unfold departing_services in Hempty. rewrite Hempty.
      rewrite (filter_all _ _ Hmembers). cbn. rewrite <- list_fmap_compose.
      by rewrite list_fmap_id.
    + f_equal. by rewrite <- list_fmap_compose.
  - destruct (remove_inventory cluster_id w1 Hdisable) as [_ Hall].
    rewrite (Hall Hret), Hsv, filter_app.
    rewrite (filter_all _ _ Hnone), filter_none; [by rewrite app_nil_r|].
    eapply Forall_impl; [exact Hmembers|]. intros s Hm Hnot. by apply Hnot.
Qed.

End Teardown.

Section Lifecycle.
Context `{Collaborators}.

(** *** [_service_relation], call by call *)

Lemma dict_update_other fields (d : gmap string string) k :
  k ∉ fields.*1 → dict_update fields d !! k = d !! k.
Proof.
  unfold dict_update. revert d. induction fields as [|[k' v] fields IH]; intros d Hk; [done|].
  cbn in *. apply not_elem_of_cons in Hk as [Hne Hk].
  rewrite IH by done. by rewrite lookup_insert_ne.
Qed.

Lemma service_relation_calls relation w ensured w1 :
  _ensure_nfs_cluster (_cluster_id relation) w = (Returned ensured, w1) →
  ∃ w' evs,
    _service_relation relation w = (Returned ensured, w') ∧
    grows w1 w' evs [] ∧ same_cluster w1 w' ∧
    if ensured then
      ∃ fsid mon_hosts keyring,
        evs = storage_calls relation (fs_volumes w1) ++
              [RelationUpdate (rel_id relation)
                 (published relation fsid mon_hosts keyring)] ∧
        relation_data w' =
          <[rel_id relation :=
              dict_update (published relation fsid mon_hosts keyring)
                (default ∅ (relation_data w1 !! rel_id relation))]>
            (relation_data w1)
    else
      evs = [RelationClear (rel_id relation)] ∧
      relation_data w' = <[rel_id relation := ∅]> (relation_data w1) ∧
      fs_volumes w' = fs_volumes w1.
Proof.
  intros Hens. unfold _service_relation. unfold bind at 1. rewrite Hens.
  destruct ensured; cbn [negb].
  - unfold bind, _ensure_fs_volume, bind, emit, get, ret, relation_data_update,
      storage_calls.
    cbn. destruct (bool_decide _); cbn.
    + eexists _, _. split; [reflexivity|]. cbn.
      split_and!; [split; cbn; [apply app_assoc3|by rewrite app_nil_r]|done|].
      eexists _, _, _. split; reflexivity.
    + eexists _, _. split; [reflexivity|]. cbn.
      split_and!; [split; cbn; [apply app_assoc4|by rewrite app_nil_r]|done|].
      eexists _, _, _. split; reflexivity.
  - unfold bind, relation_data_clear, ret. cbn.
    eexists _, _. split; [reflexivity|]. cbn.
    split_and!; [split; cbn; [reflexivity|by rewrite app_nil_r]|done|done|done|done].
Qed.

Lemma enable_is_reconcile relation evs :
  Forall (λ e, ∃ h a ok, e = EnableNfs h (_cluster_id relation) a ok) evs →
  Forall (reconcile_event relation) evs.
Proof. intros HF. eapply Forall_impl; [exact HF|]. by intros e (h & a & ok & ->). Qed.

Lemma storage_calls_reconcile relation volumes :
  Forall (reconcile_event relation) (storage_calls relation volumes).
Proof.
  unfold storage_calls. cbn. destruct (bool_decide _); cbn; by repeat constructor.
Qed.

(** One call of [_service_relation]: it returns, and makes only calls that
    service its own relation. *)
Lemma service_relation_alphabet relation w :
  ∃ ensured w' evs ls,
    _service_relation relation w = (Returned ensured, w') ∧
    grows w w' evs ls ∧ relations w' = relations w ∧
    Forall (reconcile_event relation) evs.
Proof.
  destruct (ensure_run (_cluster_id relation) w)
    as (ensured & w1 & evs1 & ls1 & Hens & Hg1 & Hm1 & Hall).
  destruct (service_relation_calls relation w ensured w1 Hens)
    as (w' & evs & Hrun & Hg & Hsame & Hcase).
  exists ensured, w', ((ListServices :: evs1) ++ evs), (ls1 ++ []).
  destruct Hsame as (_ & _ & _ & Hr & _), Hm1 as (_ & _ & _ & Hr1 & _).
  split_and!; [done|exact (grows_trans _ _ _ _ _ _ _ Hg1 Hg)|congruence|].
  apply Forall_app. split.
  - constructor; [done|by apply enable_is_reconcile].
  - destruct ensured.
    + destruct Hcase as (fsid & mon & key & -> & _).
      apply Forall_app. split; [apply storage_calls_reconcile|by repeat constructor].
    + destruct Hcase as (-> & _). by repeat constructor.
Qed.

Lemma service_each_alphabet rels w :
  ∃ w' evs ls,
    service_each rels w = (Returned tt, w') ∧ grows w w' evs ls ∧
    Forall (λ e, ∃ r, r ∈ rels ∧ reconcile_event r e) evs.
Proof.
  revert w. induction rels as [|r rels IH]; intros w.
  - exists w, [], []. split_and!; [done|apply grows_refl|constructor].
  - destruct (service_relation_alphabet r w)
      as (ensured & w1 & evs1 & ls1 & Hrun & Hg1 & _ & Hall1).
    destruct (IH w1) as (w' & evs & ls & Hrest & Hg & Hall).
    exists w', (evs1 ++ evs), (ls1 ++ ls). cbn [service_each]. unfold bind.
    rewrite Hrun, Hrest.
    split_and!; [done|exact (grows_trans _ _ _ _ _ _ _ Hg1 Hg)|].
    apply Forall_app. split.
    + eapply Forall_impl; [exact Hall1|]. intros e He. exists r.
      split; [apply list_elem_of_here|done].
    + eapply Forall_impl; [exact Hall|]. intros e (r' & Hr' & He). exists r'.
      split; [by apply list_elem_of_further|done].
Qed.

(** The member count a reconciliation ends with decides its result. *)
Lemma ensure_result_final cluster_id w :
  ∃ n' w0 w1,
    final_nodes cluster_id w = (Returned n', w0) ∧
    _ensure_nfs_cluster cluster_id w = (Returned (negb (n' =? 0)), w1).
Proof.
  destruct (le_lt_dec 3 (length (nfs_services cluster_id (services w))))
    as [Hfull|Hshort].
  - destruct (ensure_full cluster_id w Hfull) as [Hf1 Hf2].
    eexists _, _, _. split; [exact Hf2|]. rewrite Hf1. do 2 f_equal.
    symmetry. apply negb_true_iff, Nat.eqb_neq. lia.
  - destruct (ensure_short cluster_id w Hshort)
      as (n' & w0 & e0 & l0 & _ & Hf2 & Hf1).
    by eexists _, _, _.
Qed.

(** X10. [_service_relation] call by call.  It changes the published data of
    no other relation.  When the reconciliation fails, the one call after it
    is the clear of the relation's data: no volume is listed or created and
    no key is requested.  When it succeeds, the calls after it are: the
    listing of the volumes, the creation of the cluster's volume exactly
    when no listed volume has its name, one key request for the consumer's
    client with the mon and mgr capabilities, and the update of the six
    fields, which leaves every other key of the relation's data as it was. *)
Theorem service_relation_call_by_call relation w :
  let cluster_id := _cluster_id relation in
  let reconciled := new_events (_ensure_nfs_cluster cluster_id) w in
  let evs := new_events (_service_relation relation) w in
  let w' := world_after (_service_relation relation) w in
  (∀ i, i ≠ rel_id relation → relation_data w' !! i = relation_data w !! i) ∧
  match result_of (_ensure_nfs_cluster cluster_id) w with
  | Returned true =>
      ∃ fsid mon_hosts keyring,
        evs = reconciled ++ storage_calls relation (fs_volumes w) ++
              [RelationUpdate (rel_id relation)
                 (published relation fsid mon_hosts keyring)] ∧
        ∀ k, k ∉ (published relation fsid mon_hosts keyring).*1 →
             default ∅ (relation_data w' !! rel_id relation) !! k =
             default ∅ (relation_data w !! rel_id relation) !! k
  | Returned false =>
      evs = reconciled ++ [RelationClear (rel_id relation)] ∧
      fs_volumes w' = fs_volumes w
  | Raised _ => False
  end.
Proof.
  intros cluster_id reconciled evs w'.
  destruct (ensure_run cluster_id w)
    as (ensured & w1 & evs1 & ls1 & Hens & Hg1 & Hm1 & _).
  destruct (service_relation_calls relation w ensured w1 Hens)
    as (w2 & evs2 & Hrun & Hg & _ & Hcase).
  destruct (run_observed _ _ _ _ _ _ Hens Hg1) as (Hr & _ & He1 & _).
  destruct (run_observed _ _ _ _ _ _ Hrun (grows_trans _ _ _ _ _ _ _ Hg1 Hg))
    as (_ & Hw & He & _).
  fold cluster_id in Hr, He1. fold reconciled in He1.
  subst evs w'. rewrite Hr, Hw, He, He1.
  destruct Hm1 as (_ & _ & _ & _ & Hdata & Hvol).
  destruct ensured.
  - destruct Hcase as (fsid & mon & key & -> & Hd). split.
    + intros i Hi. rewrite Hd, lookup_insert_ne by done. by rewrite Hdata.
    + exists fsid, mon, key. rewrite Hvol. split; [done|].
      intros k Hk. rewrite Hd, lookup_insert_eq. cbn [default]. unfold id.
      rewrite dict_update_other by done. by rewrite Hdata.
  - destruct Hcase as (-> & Hd & Hv). split.
    + intros i Hi. rewrite Hd, lookup_insert_ne by done. by rewrite Hdata.
    + split; [done|]. by rewrite Hv, Hvol.
Qed.

(** *** The connect handler *)

Lemma connected_run event_relation w :
  is_leader w = true → osd_count w ≠ 0 →
  _on_ceph_nfs_connected event_relation w =
    match _service_relation event_relation (connecting w) with
    | (Returned true, w') => (Returned tt, w')
    | (Returned false, w') =>
        (Returned tt,
         set_trace (trace w' ++ [Defer])
           (set_log (log w' ++
              [Log ERROR
                 "An error occurred while handling the ceph-nfs relation, deferring."
                 []]) w'))
    | (Raised ex, w') => (Raised ex, w')
    end.
Proof.
  intros Hleader Hosd. unfold _on_ceph_nfs_connected, bind, get, logger.
  rewrite Hleader. cbn [negb]. apply Nat.eqb_neq in Hosd. rewrite Hosd.
  fold (connecting w).
  by destruct (_service_relation event_relation (connecting w)) as [[[|]|ex] w'].
Qed.

Lemma connected_no_storage event_relation w :
  is_leader w = true → osd_count w = 0 →
  _on_ceph_nfs_connected event_relation w =
    (Returned tt,
     set_trace (trace w ++ [Defer])
       (set_log (log w ++ [Log INFO "Storage not available, deferring event." []]) w)).
Proof.
  intros Hleader Hosd. unfold _on_ceph_nfs_connected, bind, get, logger.
  rewrite Hleader. cbn [negb]. by rewrite Hosd.
Qed.

(** The connect handler, with the events of servicing its relation. *)
Lemma connected_events event_relation w :
  is_leader w = true → osd_count w ≠ 0 →
  ∃ ensured w1 evs ls,
    _service_relation event_relation (connecting w) = (Returned ensured, w1) ∧
    grows (connecting w) w1 evs ls ∧
    Forall (reconcile_event event_relation) evs ∧
    result_of (_on_ceph_nfs_connected event_relation) w = Returned tt ∧
    new_events (_on_ceph_nfs_connected event_relation) w =
      evs ++ (if ensured then [] else [Defer]) ∧
    relation_data (world_after (_on_ceph_nfs_connected event_relation) w) =
      relation_data w1.
Proof.
  intros Hleader Hosd.
  destruct (service_relation_alphabet event_relation (connecting w))
    as (ensured & w1 & evs & ls & Hrun & Hg & _ & Hall).
  exists ensured, w1, evs, ls. split_and!; [done|done|done|..];
    unfold result_of, new_events, world_after;
    rewrite (connected_run _ _ Hleader Hosd), Hrun;
    destruct Hg as [Ht _]; change (trace (connecting w)) with (trace w) in Ht;
    destruct ensured; cbn; rewrite ?Ht, ?app_nil_r, <- ?app_assoc,
      ?drop_app_length; done.
Qed.

(** X11. Deferral of the connect handler.  On the leader the handler
    returns, whatever the actuators do.  It defers the event exactly when the
    storage cluster has no OSD or the reconciliation ended with no member;
    the deferral is then its last call.  Without storage the deferral is its
    only call and neither the inventory nor the published data changes; after
    a failed reconciliation the published data of the relation is empty. *)
Theorem connect_defers_exactly_when_unserved event_relation w :
  let evs := new_events (_on_ceph_nfs_connected event_relation) w in
  let w' := world_after (_on_ceph_nfs_connected event_relation) w in
  let ended_empty :=
    result_of (final_nodes (_cluster_id event_relation)) (connecting w) = Returned 0 in
  is_leader w = true →
  result_of (_on_ceph_nfs_connected event_relation) w = Returned tt ∧
  (Defer ∈ evs ↔ osd_count w = 0 ∨ ended_empty) ∧
  (Defer ∈ evs → last evs = Some Defer) ∧
  (osd_count w = 0 →
   evs = [Defer] ∧ services w' = services w ∧ relation_data w' = relation_data w) ∧
  (osd_count w ≠ 0 → ended_empty →
   relation_data w' !! rel_id event_relation = Some ∅).
Proof.
  intros evs w' ended_empty Hleader.
  destruct (decide (osd_count w = 0)) as [Hosd|Hosd].
  - pose proof (connected_no_storage event_relation w Hleader Hosd) as Hrun.
    assert (Hevs : evs = [Defer]).
    { subst evs. unfold new_events, world_after. rewrite Hrun. cbn.
      by rewrite drop_app_length. }
    subst w'. unfold result_of, world_after. rewrite Hrun, Hevs. cbn.
    split_and!; [done| |done|done|done].
    split; [by left|]. intros _. apply list_elem_of_here.
  - destruct (connected_events event_relation w Hleader Hosd)
      as (ensured & w1 & evs1 & ls & Hrun & _ & Hall & Hres & Hevs & Hdata).
    fold evs in Hevs. fold w' in Hdata.
    destruct (ensure_result_final (_cluster_id event_relation) (connecting w))
      as (n' & w0 & w2 & Hfin & Hens).
    destruct (service_relation_calls event_relation (connecting w) _ w2 Hens)
      as (w3 & evs3 & Hrun3 & _ & _ & Hcase).
    rewrite Hrun in Hrun3. injection Hrun3 as -> <-.
    assert (Hempty : ended_empty ↔ n' = 0).
    { subst ended_empty. unfold result_of. rewrite Hfin. cbn.
      split; [by intros [= ->]|by intros ->]. }
    assert (Hnot : Defer ∉ evs1).
    { intros Hin. by apply (proj1 (Forall_forall _ _) Hall) in Hin. }
    split_and!.
    + done.
    + rewrite Hevs, Hempty. split.
      * intros Hin. right. apply elem_of_app in Hin as [Hin|Hin]; [done|].
        destruct n'; [done|]. by apply elem_of_nil in Hin.
      * intros [Hz | ->]; [done|]. apply elem_of_app. right. apply list_elem_of_here.
    + rewrite Hevs. intros Hin. apply elem_of_app in Hin as [Hin|Hin]; [done|].
      destruct (negb (n' =? 0)); [by apply elem_of_nil in Hin|].
      by rewrite last_snoc.
    + done.
    + intros _ Hz. apply Hempty in Hz. subst n'. cbn in Hcase.
      destruct Hcase as (_ & Hd & _). by rewrite Hdata, Hd, lookup_insert_eq.
Qed.

(** X12. The connect handler (and the reconcile handler, which is the same
    code) only ever adds: besides the deferral, every call it makes services
    its own relation.  It calls Enable only for the relation's cluster, makes
    no Disable call, revokes no key, and writes the published data of no
    other relation. *)
Theorem connect_only_services_its_relation event_relation w :
  Forall (λ e, e = Defer ∨ reconcile_event event_relation e)
    (new_events (_on_ceph_nfs_connected event_relation) w) ∧
  Forall (λ e, e = Defer ∨ reconcile_event event_relation e)
    (new_events (_on_ceph_nfs_reconcile event_relation) w).
Proof.
  unfold _on_ceph_nfs_reconcile.
  cut (Forall (λ e, e = Defer ∨ reconcile_event event_relation e)
         (new_events (_on_ceph_nfs_connected event_relation) w)); [by split|].
  destruct (is_leader w) eqn:Hleader.
  - destruct (decide (osd_count w = 0)) as [Hosd|Hosd].
    + unfold new_events, world_after.
      rewrite (connected_no_storage _ _ Hleader Hosd). cbn.
      rewrite drop_app_length. constructor; [by left|constructor].
    + destruct (connected_events event_relation w Hleader Hosd)
        as (ensured & w1 & evs1 & ls & _ & _ & Hall & _ & -> & _).
      apply Forall_app. split.
      * eapply Forall_impl; [exact Hall|]. by right.
      * destruct ensured; [constructor|]. constructor; [by left|constructor].
  - unfold new_events, world_after, _on_ceph_nfs_connected, bind, get.
    rewrite Hleader. cbn. rewrite drop_all. constructor.
Qed.

(** *** The depart handler *)

(** X13. The calls of the depart handler: Disable only for the departing
    cluster, the revocation only of the departing consumer's key, and
    otherwise the inventory query or a call that services one of the other
    relations of the endpoint.  It never defers the event, calls Enable only
    for the clusters of other relations, and never writes the published data
    of the departing relation. *)
Theorem depart_calls_are_teardown_or_rebalance event_relation w :
  Forall (departed_event event_relation
            (other_relations event_relation (relations w)))
    (new_events (_on_ceph_nfs_departed event_relation) w).
Proof.
  set (others := other_relations event_relation (relations w)).
  destruct (is_leader w) eqn:Hleader.
  2:{ unfold new_events, world_after, _on_ceph_nfs_departed, bind, get.
      rewrite Hleader. cbn. rewrite drop_all. constructor. }
  assert (Htorn : ∀ l, Forall (departed_event event_relation others)
                         (disabled (_cluster_id event_relation) <$> l)).
  { intros l. apply Forall_fmap, Forall_true. done. }
  pose proof (remove_nfs_cluster_same_model (_cluster_id event_relation)
                (departing w)) as Hm.
  unfold world_after in Hm.
  unfold new_events, world_after, _on_ceph_nfs_departed, bind, get, logger.
  rewrite Hleader. cbn [negb]. fold (departing w).
  destruct (remove_run (_cluster_id event_relation) (departing w))
    as [(w1 & Hrun & [Ht1 _] & _)|(ex & w1 & before & s & rest & _ & Hrun & [Ht1 _] & _)];
    rewrite Hrun in *; change (trace (departing w)) with (trace w) in Ht1.
  - cbn in Hm. destruct Hm as (_ & _ & _ & Hrel & _).
    change (relations (departing w)) with (relations w) in Hrel.
    unfold emit. cbn.
    set (w2 := set_trace _ w1).
    destruct (service_each_alphabet (other_relations event_relation (relations w1)) w2)
      as (w' & evs & ls & Hrest & [Ht _] & Hall).
    unfold other_relations in Hrest. rewrite Hrest. cbn [snd]. rewrite Ht. subst w2. cbn [trace set_trace].
    rewrite Ht1, <- !app_assoc, drop_app_length. rewrite Hrel in Hall.
    constructor; [by left|]. apply Forall_app. split; [apply Htorn|].
    constructor; [done|].
    eapply Forall_impl; [exact Hall|]. intros e (r & Hr & He).
    destruct e; try done; right; by exists r.
  - cbn [snd]. rewrite Ht1, drop_app_length.
    constructor; [by left|]. apply Forall_app. split; [apply Htorn|].
    by repeat constructor.
Qed.

End Lifecycle.


(** ** The further properties on concrete runs *)

(** The address of h2 is found whichever way the five units are iterated. *)
Lemma public_address_ignores_unit_order_witness :
  peers fresh = Some five_peers ∧ peers shuffled = Some (reverse five_peers) ∧
  NoDup (named_hosts five_peers) ∧ five_peers ≡ₚ reverse five_peers ∧
  result_of (_get_public_address "h2") shuffled =
  result_of (_get_public_address "h2") fresh.
Proof.
  assert (Hnd : NoDup (named_hosts five_peers)) by by_compute.
  assert (Hperm : five_peers ≡ₚ reverse five_peers)
    by (symmetry; apply reverse_Permutation).
  split_and!; [reflexivity|reflexivity|exact Hnd|exact Hperm|].
  exact (public_address_ignores_unit_order "h2" fresh shuffled five_peers
           (reverse five_peers) eq_refl eq_refl Hnd Hperm).
Defined.

(** Before the peers relation exists, reconciling g1 enables nothing and
    reports failure. *)
Lemma missing_peers_relation_enrolls_nobody_witness :
  peers no_peers = None ∧
  length (nfs_services "g1" (services no_peers)) < 3 ∧
  result_of (@_ensure_nfs_cluster (double [] []) "g1") no_peers = Returned false ∧
  new_events (@_ensure_nfs_cluster (double [] []) "g1") no_peers = [ListServices].
Proof.
  assert (Hshort : length (nfs_services "g1" (services no_peers)) < 3)
    by (vm_compute; lia).
  split_and!; [reflexivity|exact Hshort|..];
    destruct (@missing_peers_relation_enrolls_nobody (double [] []) "g1" no_peers
                eq_refl Hshort) as (Hres & Hevs & _); [exact Hres|exact Hevs].
Defined.

Lemma listing_first_enable_as_spec : @enable_as_spec listing_first.
Proof.
  intros w host cluster_id addr inv. cbn. unfold spec_enable_first.
  intros [= <-]. apply Permutation_cons_append.
Qed.

Lemma listing_first_disable_as_spec : @disable_as_spec listing_first.
Proof.
  intros w host cluster_id inv. cbn. unfold spec_disable. cbn. by intros [= <-].
Qed.

(** With an Enable that lists a new instance first, reconciling g1 from
    scratch leaves the osds and the three instances of g1. *)
Lemma enrollment_extends_the_inventory_witness :
  @enable_as_spec listing_first ∧
  services (world_after (@_ensure_nfs_cluster listing_first "g1") fresh) ≡ₚ
    services fresh ++
    (enrolled "g1" <$>
       enabled_hosts (new_events (@_ensure_nfs_cluster listing_first "g1") fresh)).
Proof.
  split; [apply listing_first_enable_as_spec|].
  exact (proj1 (@enrollment_extends_the_inventory listing_first "g1" fresh
                  listing_first_enable_as_spec)).
Defined.

(** Tearing g1 down in the crowded cluster keeps the instance of g2. *)
Lemma teardown_removes_only_the_group_witness :
  @disable_as_spec (double [] []) ∧
  Svc "nfs" "h4" (Some "g2")
    ∈ services (world_after (@_remove_nfs_cluster (double [] []) "g1") crowded).
Proof.
  split; [apply double_disable_as_spec|].
  destruct (@teardown_removes_only_the_group (double [] []) "g1" crowded
              (double_disable_as_spec _ _)) as (_ & Hkeep & _).
  apply Hkeep; [by_compute|]. intros [_ Hgrp]. discriminate Hgrp.
Defined.

(** With an Enable that lists a new instance first, reconciling g1 from
    scratch and tearing it down again gives back the inventory of osds. *)
Lemma teardown_undoes_enrollment_witness :
  @enable_as_spec listing_first ∧ @disable_as_spec listing_first ∧
  nfs_services "g1" (services fresh) = [] ∧
  result_of (@_remove_nfs_cluster listing_first "g1")
    (world_after (@_ensure_nfs_cluster listing_first "g1") fresh) = Returned tt ∧
  services (world_after (@_remove_nfs_cluster listing_first "g1")
              (world_after (@_ensure_nfs_cluster listing_first "g1") fresh))
    ≡ₚ services fresh.
Proof.
  assert (Hempty : nfs_services "g1" (services fresh) = [])
    by (vm_compute; reflexivity).
  assert (Hret : result_of (@_remove_nfs_cluster listing_first "g1")
                   (world_after (@_ensure_nfs_cluster listing_first "g1") fresh)
                 = Returned tt) by (vm_compute; reflexivity).
  split_and!; [apply listing_first_enable_as_spec
              |apply listing_first_disable_as_spec|exact Hempty|exact Hret|].
  exact (proj2 (@teardown_undoes_enrollment listing_first "g1" fresh
                  listing_first_enable_as_spec listing_first_disable_as_spec
                  Hempty Hret)).
Defined.

(** The same run, call by call: the hosts are enabled in candidate order
    and disabled in the order of the listing, which here is the reverse. *)
Example teardown_follows_the_listing :
  new_events (@_ensure_nfs_cluster listing_first "g1") fresh =
    [ListServices; EnableNfs "h1" "g1" "10.1.0.1" true;
     EnableNfs "h2" "g1" "10.1.0.2" true; EnableNfs "h3" "g1" "10.1.0.3" true] ∧
  new_events (@_remove_nfs_cluster listing_first "g1")
    (world_after (@_ensure_nfs_cluster listing_first "g1") fresh) =
    [ListServices; DisableNfs "h3" "g1" true; DisableNfs "h2" "g1" true;
     DisableNfs "h1" "g1" true].
Proof. split; vm_compute; reflexivity. Qed.

(** Without an OSD the leader defers and does nothing else. *)
Lemma connect_defers_exactly_when_unserved_witness :
  is_leader no_storage = true ∧
  Defer ∈ new_events (@_on_ceph_nfs_connected (double [] []) rel_g1) no_storage ∧
  last (new_events (@_on_ceph_nfs_connected (double [] []) rel_g1) no_storage)
    = Some Defer.
Proof.
  split; [reflexivity|].
  destruct (@connect_defers_exactly_when_unserved (double [] []) rel_g1 no_storage
              eq_refl) as (_ & Hiff & Hlast & _).
  assert (Hin : Defer ∈ new_events (@_on_ceph_nfs_connected (double [] []) rel_g1)
                         no_storage).
  { apply Hiff. left. reflexivity. }
  exact (conj Hin (Hlast Hin)).
Defined.

(** Reconciling g1 from scratch ends with three members; reconciling it
    again only queries the inventory. *)
Lemma reconcile_is_stable_at_three_witness :
  @enable_as_spec (double [] []) ∧
  result_of (@final_nodes (double [] []) "g1") fresh = Returned 3 ∧
  new_events (@_ensure_nfs_cluster (double [] []) "g1")
    (world_after (@_ensure_nfs_cluster (double [] []) "g1") fresh) = [ListServices].
Proof.
  assert (Hfin : result_of (@final_nodes (double [] []) "g1") fresh = Returned 3)
    by (vm_compute; reflexivity).
  split_and!; [apply double_enable_as_spec|exact Hfin|].
  exact (proj1 (proj2 (@reconcile_is_stable_at_three (double [] []) "g1" fresh
                         (double_enable_as_spec _ _) Hfin))).
Defined.

(** Enable raises on h1: after the reconciliation h1 is still a candidate. *)
Lemma unenrolled_candidates_stay_candidates_witness :
  @enable_as_spec (double ["h1"] []) ∧ @set_iter_ok (double ["h1"] []) ∧
  EnableNfs "h1" "g1" "10.1.0.1" false
    ∈ new_events (@_ensure_nfs_cluster (double ["h1"] []) "g1") fresh ∧
  "h1" ∈ @candidates (double ["h1"] [])
           (services (world_after (@_ensure_nfs_cluster (double ["h1"] []) "g1")
                        fresh)).
Proof.
  assert (Hfail : EnableNfs "h1" "g1" "10.1.0.1" false
            ∈ new_events (@_ensure_nfs_cluster (double ["h1"] []) "g1") fresh)
    by by_compute.
  split_and!; [apply double_enable_as_spec|apply double_set_iter_ok|exact Hfail|].
  exact (proj2 (@unenrolled_candidates_stay_candidates (double ["h1"] []) "g1" fresh
                  (double_enable_as_spec _ _) (double_set_iter_ok _ _))
           "h1" "10.1.0.1" Hfail).
Defined.
